(** * tushan: classification of the admin children tree and menu registration

    A shallow embedding of
    [packages/tushan/client/hooks/useConfigureAdminRouterFromChildren.ts].

    - [getRoutesAndResourceFromNodes] walks the children of the root
      component and sorts the elements it meets into four arrays.
    - [useRoutesAndResourcesFromChildren] keeps the classification in a
      React state slot.
    - [useRegisterMenu] mirrors a list of classified entries into the
      menu store.

    React values are modelled as first-order data; a hook is a function
    from the state it keeps between renders to its result and the next
    state; calls to the menu store are recorded as a trace. *)

From stdpp Require Import base list strings countable gmap.
From Stdlib Require Import ZArith.

Local Open Scope string_scope.
Local Open Scope list_scope.

(** ** JavaScript values held in props *)

(** The hook only copies prop values, tests the truthiness of [noLayout]
    and compares [noMenu] with [true]; objects (an icon element, the
    [element] of a route) are opaque to it. *)
Inductive JsVal :=
| JUndefined
| JNull
| JBool (b : bool)
| JNum (z : Z)
| JStr (s : string)
| JObject (tag : string).

#[global] Instance JsVal_eq_dec : EqDecision JsVal.
Proof. solve_decision. Defined.

#[global] Instance JsVal_countable : Countable JsVal.
Proof.
  refine (inj_countable'
    (fun v => match v with
              | JUndefined => inl (inl false)
              | JNull => inl (inl true)
              | JBool b => inl (inr b)
              | JNum z => inr (inl z)
              | JStr s => inr (inr (inl s))
              | JObject t => inr (inr (inr t))
              end)
    (fun x => match x with
              | inl (inl false) => JUndefined
              | inl (inl true) => JNull
              | inl (inr b) => JBool b
              | inr (inl z) => JNum z
              | inr (inr (inl s)) => JStr s
              | inr (inr (inr t)) => JObject t
              end) _).
  by intros [].
Defined.

(** [if (v)] *)
Definition truthy (v : JsVal) : bool :=
  match v with
  | JUndefined | JNull => false
  | JBool b => b
  | JNum z => negb (Z.eqb z 0)
  | JStr s => negb (Nat.eqb (String.length s) 0)
  | JObject _ => true
  end.

(** [v === w] *)
Definition strict_eq (v w : JsVal) : bool := bool_decide (v = w).

(** An object literal with data-valued fields, in insertion order. *)
Definition JsObject := list (string * JsVal).

(** [obj.k]; a missing key reads as [undefined]. *)
Fixpoint js_get (obj : JsObject) (k : string) : JsVal :=
  match obj with
  | [] => JUndefined
  | (k', v) :: rest => if String.eqb k' k then v else js_get rest k
  end.

(** ** React nodes and elements *)

Inductive ElementType :=
| Fragment
| Category
| CustomRoute
| Resource
| OtherType (name : string).

(** [element.type === ty] *)
Definition type_is (a b : ElementType) : bool :=
  match a, b with
  | Fragment, Fragment => true
  | Category, Category => true
  | CustomRoute, CustomRoute => true
  | Resource, Resource => true
  | OtherType s, OtherType t => String.eqb s t
  | _, _ => false
  end.

(** A [ReactNode] is what [Children.forEach] accepts: nothing, text, a
    (nested) array, or an element.  The props object of an element is
    kept in the split form [{ children, ...rest }]: [children] is the
    value at the key [children] and [props] holds every other key. *)
#[warnings="-register-all"]
Inductive ReactNode :=
| NNull
| NUndefined
| NBool (b : bool)
| NText (s : string)
| NNumber (z : Z)
| NArray (items : list ReactNode)
| NElement (e : ReactElement)
with ReactElement :=
| Element (type : ElementType) (children : ReactNode) (props : JsObject).

Definition type (e : ReactElement) : ElementType :=
  match e with Element ty _ _ => ty end.
Definition children (e : ReactElement) : ReactNode :=
  match e with Element _ ch _ => ch end.
Definition props (e : ReactElement) : JsObject :=
  match e with Element _ _ pr => pr end.

(** [TushanCategoryPathInfo]: the props of a Category without
    [children]. *)
Definition TushanCategoryPathInfo := JsObject.
Definition Path := list TushanCategoryPathInfo.

(** [{ path, element }] *)
Record Entry := { path : Path; element : ReactElement }.

(** ** RoutesAndResources *)

Record RoutesAndResources := {
  customRoutesWithLayout : list Entry;
  customRoutesWithoutLayout : list ReactElement;
  resources : list Entry;
  components : list ReactElement;
}.

(** The four empty arrays a call starts with. *)
Definition empty_result : RoutesAndResources :=
  {| customRoutesWithLayout := []; customRoutesWithoutLayout := [];
     resources := []; components := [] |}.

(** [customRoutesWithLayout.push(x)] and its siblings. *)
Definition push_withLayout (x : Entry) (acc : RoutesAndResources) :=
  {| customRoutesWithLayout := customRoutesWithLayout acc ++ [x];
     customRoutesWithoutLayout := customRoutesWithoutLayout acc;
     resources := resources acc;
     components := components acc |}.
Definition push_withoutLayout (x : ReactElement) (acc : RoutesAndResources) :=
  {| customRoutesWithLayout := customRoutesWithLayout acc;
     customRoutesWithoutLayout := customRoutesWithoutLayout acc ++ [x];
     resources := resources acc;
     components := components acc |}.
Definition push_resource (x : Entry) (acc : RoutesAndResources) :=
  {| customRoutesWithLayout := customRoutesWithLayout acc;
     customRoutesWithoutLayout := customRoutesWithoutLayout acc;
     resources := resources acc ++ [x];
     components := components acc |}.
Definition push_component (x : ReactElement) (acc : RoutesAndResources) :=
  {| customRoutesWithLayout := customRoutesWithLayout acc;
     customRoutesWithoutLayout := customRoutesWithoutLayout acc;
     resources := resources acc;
     components := components acc ++ [x] |}.

(** The four [push(...sub.bucket)] of the Fragment and Category
    branches. *)
Definition push_spread (sub acc : RoutesAndResources) :=
  {| customRoutesWithLayout :=
       customRoutesWithLayout acc ++ customRoutesWithLayout sub;
     customRoutesWithoutLayout :=
       customRoutesWithoutLayout acc ++ customRoutesWithoutLayout sub;
     resources := resources acc ++ resources sub;
     components := components acc ++ components sub |}.

(** ** The classifier *)

(** [forEachChild children path acc] is
    [Children.forEach(children, callback)] run on the accumulators [acc]:
    arrays are flattened, the callback returns at once on anything that
    is not an element, and on an element it runs its four [if]s in
    sequence and then the fallback push.  The recursive calls of the
    Fragment and Category branches start from fresh empty arrays. *)
Fixpoint forEachChild (nodes : ReactNode) (path : Path)
    (acc : RoutesAndResources) : RoutesAndResources :=
  match nodes with
  | NArray items =>
      (fix each (l : list ReactNode) (acc : RoutesAndResources) :=
         match l with
         | [] => acc
         | n :: l' => each l' (forEachChild n path acc)
         end) items acc
  | NElement (Element ty ch pr as e) =>
      let acc1 :=
        if type_is ty Fragment
        then push_spread (forEachChild ch path empty_result) acc
        else acc in
      let acc2 :=
        if type_is ty Category
        then push_spread (forEachChild ch (path ++ [pr]) empty_result) acc1
        else acc1 in
      let acc3 :=
        if type_is ty CustomRoute
        then (if truthy (js_get pr "noLayout")
              then push_withoutLayout e acc2
              else push_withLayout {| path := path; element := e |} acc2)
        else acc2 in
      let acc4 :=
        if type_is ty Resource
        then push_resource {| path := path; element := e |} acc3
        else acc3 in
      push_component e acc4
  | _ => acc
  end.

Definition getRoutesAndResourceFromNodes (nodes : ReactNode) (path : Path)
    : RoutesAndResources :=
  forEachChild nodes path empty_result.

(** ** What the traversal visits *)

(** [reached nodes cs e]: the traversal of [nodes] visits the element
    [e], and [cs] lists the [{ children, ...currPathInfo }] segments of
    the Category elements that enclose it, outermost first.  Arrays and
    Fragments are transparent; nothing below an element of another type
    is visited. *)
Inductive reached : ReactNode -> Path -> ReactElement -> Prop :=
| reached_item items n cs e :
    In n items -> reached n cs e -> reached (NArray items) cs e
| reached_here e :
    reached (NElement e) [] e
| reached_fragment ch pr cs e :
    reached ch cs e -> reached (NElement (Element Fragment ch pr)) cs e
| reached_category ch pr cs e :
    reached ch cs e -> reached (NElement (Element Category ch pr)) (pr :: cs) e.

(** The visits of the traversal in the order in which the callback
    finishes with them, each with its enclosing Category segments. *)
Definition under (seg : TushanCategoryPathInfo) (v : Path * ReactElement)
    : Path * ReactElement :=
  (seg :: fst v, snd v).

Fixpoint visits (nodes : ReactNode) : list (Path * ReactElement) :=
  match nodes with
  | NArray items =>
      (fix each (l : list ReactNode) :=
         match l with
         | [] => []
         | n :: l' => visits n ++ each l'
         end) items
  | NElement (Element ty ch pr as e) =>
      match ty with
      | Fragment => visits ch
      | Category => map (under pr) (visits ch)
      | _ => []
      end ++ [([], e)]
  | _ => []
  end.

(** An element the traversal does not descend into. *)
Definition is_leaf (e : ReactElement) : bool :=
  negb (type_is (type e) Fragment) && negb (type_is (type e) Category).

(** The bucket tests of the callback, as predicates on an element. *)
Definition goes_withoutLayout (e : ReactElement) : bool :=
  type_is (type e) CustomRoute && truthy (js_get (props e) "noLayout").
Definition goes_withLayout (e : ReactElement) : bool :=
  type_is (type e) CustomRoute && negb (truthy (js_get (props e) "noLayout")).
Definition goes_resources (e : ReactElement) : bool :=
  type_is (type e) Resource.

(** The entry recorded for a visit when the walk started at [start]. *)
Definition entry_at (start : Path) (v : Path * ReactElement) : Entry :=
  {| path := start ++ fst v; element := snd v |}.

(** The four arrays read off a list of visits. *)
Definition buckets_of (start : Path) (vs : list (Path * ReactElement))
    : RoutesAndResources :=
  {| customRoutesWithLayout :=
       map (entry_at start) (List.filter (fun v => goes_withLayout (snd v)) vs);
     customRoutesWithoutLayout :=
       map snd (List.filter (fun v => goes_withoutLayout (snd v)) vs);
     resources :=
       map (entry_at start) (List.filter (fun v => goes_resources (snd v)) vs);
     components := map snd vs |}.

(** ** The state holder *)

(** An array cell of the state after a merge: the value its type
    announces, or a whole array stored as one element. *)
#[warnings="-register-all"]
Inductive Cell (A : Type) :=
| Item (x : A)
| Nested (cells : list (Cell A)).
Arguments Item {A} x.
Arguments Nested {A} cells.

(** The state object as it is at run time. *)
Record StateValue := {
  sv_customRoutesWithLayout : list (Cell Entry);
  sv_customRoutesWithoutLayout : list (Cell ReactElement);
  sv_resources : list (Cell Entry);
  sv_components : list (Cell ReactElement);
}.

(** A classification result seen as a state value. *)
Definition state_of (r : RoutesAndResources) : StateValue :=
  {| sv_customRoutesWithLayout := map Item (customRoutesWithLayout r);
     sv_customRoutesWithoutLayout := map Item (customRoutesWithoutLayout r);
     sv_resources := map Item (resources r);
     sv_components := map Item (components r) |}.

(** The updater that [mergeRoutesAndResources] hands to the setter:
    [[...previous.bucket, newRoutesAndResources.bucket]] spreads the
    previous array and stores the new one as a single element. *)
Definition mergeRoutesAndResources (previous newRoutesAndResources : StateValue)
    : StateValue :=
  {| sv_customRoutesWithLayout :=
       sv_customRoutesWithLayout previous
         ++ [Nested (sv_customRoutesWithLayout newRoutesAndResources)];
     sv_customRoutesWithoutLayout :=
       sv_customRoutesWithoutLayout previous
         ++ [Nested (sv_customRoutesWithoutLayout newRoutesAndResources)];
     sv_resources :=
       sv_resources previous ++ [Nested (sv_resources newRoutesAndResources)];
     sv_components :=
       sv_components previous ++ [Nested (sv_components newRoutesAndResources)] |}.

(** The merge as the spec words it: each list of the second result is
    appended, element by element, to the corresponding list of the
    first. *)
Definition merge_appending (a b : StateValue) : StateValue :=
  {| sv_customRoutesWithLayout :=
       sv_customRoutesWithLayout a ++ sv_customRoutesWithLayout b;
     sv_customRoutesWithoutLayout :=
       sv_customRoutesWithoutLayout a ++ sv_customRoutesWithoutLayout b;
     sv_resources := sv_resources a ++ sv_resources b;
     sv_components := sv_components a ++ sv_components b |}.

(** Number of cells of a state array, nested ones included. *)
Fixpoint cell_size {A} (c : Cell A) : nat :=
  match c with
  | Item _ => 1
  | Nested cells =>
      S ((fix total (l : list (Cell A)) :=
            match l with
            | [] => 0
            | c' :: l' => cell_size c' + total l'
            end) cells)
  end.
Definition cells_size {A} (l : list (Cell A)) : nat :=
  fold_right (fun c n => cell_size c + n) 0 l.

(** React's [useState]: the slot is empty before the first render; the
    argument is the initial state and is used on the first render only.
    The hook returns the state held by the slot. *)
Definition StateSlot := option RoutesAndResources.

Definition useState (initialState : RoutesAndResources) (slot : StateSlot)
    : RoutesAndResources * StateSlot :=
  match slot with
  | None => (initialState, Some initialState)
  | Some current => (current, Some current)
  end.

(** [useRoutesAndResourcesState]: the first component of the triple it
    returns; the setter and the merge function are returned as well but
    [useRoutesAndResourcesFromChildren] drops them. *)
Definition useRoutesAndResourcesState (initialState : RoutesAndResources)
    (slot : StateSlot) : RoutesAndResources * StateSlot :=
  useState initialState slot.

(** [useRoutesAndResourcesFromChildren]: the classifier runs on every
    render, as the argument of the state hook. *)
Definition useRoutesAndResourcesFromChildren (nodes : ReactNode)
    (slot : StateSlot) : RoutesAndResources * StateSlot :=
  useRoutesAndResourcesState (getRoutesAndResourceFromNodes nodes []) slot.

(** The results of a sequence of renders from the same slot. *)
Fixpoint renders (trees : list ReactNode) (slot : StateSlot)
    : list RoutesAndResources :=
  match trees with
  | [] => []
  | t :: rest =>
      let '(r, slot') := useRoutesAndResourcesFromChildren t slot in
      r :: renders rest slot'
  end.

(** ** The menu registrar *)

(** Reading a key of an object literal; [None] stands for the
    [undefined] a missing key reads as. *)
Fixpoint field_get {V} (fields : list (string * V)) (k : string) : option V :=
  match fields with
  | [] => None
  | (k', v) :: rest => if String.eqb k' k then Some v else field_get rest k
  end.

(** The keys of a classified entry, as the literals
    [{ path, element }] of the classifier build it. *)
Inductive EntryProperty :=
| EPath (p : Path)
| EElement (e : ReactElement).

Definition entry_fields (route : Entry) : list (string * EntryProperty) :=
  [("path", EPath (path route)); ("element", EElement (element route))].

Inductive JsError := TypeError.

Inductive Result (A : Type) :=
| Ok (x : A)
| Throw (err : JsError).
Arguments Ok {A} x.
Arguments Throw {A} err.

(** [base.name], [base] being what a property read of an entry gave:
    on [undefined] the read throws; neither a path array nor an element
    object has a key [name]. *)
Definition read_name (base : option EntryProperty) : Result JsVal :=
  match base with
  | None => Throw TypeError
  | Some (EPath _) => Ok JUndefined
  | Some (EElement _) => Ok JUndefined
  end.

Record MenuInfo := { key : JsVal; label : JsVal; icon : JsVal }.

(** A call to the menu store. *)
Inductive StoreCall :=
| AddMenu (info : MenuInfo) (at_path : Path)
| RemoveMenu (k : JsVal).

Inductive Completion :=
| Normal
| Thrown (err : JsError).

(** The body of the first [forEach]: [addMenu] with the name, label and
    icon of [route.element.props], at [route.path]. *)
Definition add_call (route : Entry) : StoreCall :=
  AddMenu {| key := js_get (props (element route)) "name";
             label := js_get (props (element route)) "label";
             icon := js_get (props (element route)) "icon" |}
          (path route).

(** The body of the [forEach] of the cleanup: the argument
    [route.props.name] is evaluated before [removeMenu] is entered. *)
Definition remove_call (route : Entry) : Result StoreCall :=
  match read_name (field_get (entry_fields route) "props") with
  | Ok k => Ok (RemoveMenu k)
  | Throw err => Throw err
  end.

(** [forEach] over a callback that may throw: the calls made before
    the first exception, and how the loop ended. *)
Fixpoint forEach_calls (body : Entry -> Result StoreCall) (l : list Entry)
    : list StoreCall * Completion :=
  match l with
  | [] => ([], Normal)
  | route :: rest =>
      match body route with
      | Throw err => ([], Thrown err)
      | Ok c => let '(cs, done) := forEach_calls body rest in (c :: cs, done)
      end
  end.

(** The effect of [useRegisterMenu]: the calls it makes and the
    [filteredRoutes] its cleanup closes over. *)
Definition register_effect (routes : list Entry) (filterFn : Entry -> bool)
    : list StoreCall * list Entry :=
  let filteredRoutes := List.filter filterFn routes in
  (map add_call filteredRoutes, filteredRoutes).

(** The cleanup returned by the effect. *)
Definition register_cleanup (filteredRoutes : list Entry)
    : list StoreCall * Completion :=
  forEach_calls remove_call filteredRoutes.

(** The cleanup as the spec words it: one removal per entry of the
    previous filtered list, keyed by the declared name of the entry. *)
Definition cleanup_by_declared_name (filteredRoutes : list Entry)
    : list StoreCall :=
  map (fun route => RemoveMenu (js_get (props (element route)) "name"))
      filteredRoutes.


(** The default [filterFn] and the one the hook passes for custom
    routes. *)
Definition admit_all (item : Entry) : bool := true.
Definition without_noMenu (item : Entry) : bool :=
  negb (strict_eq (js_get (props (element item)) "noMenu") (JBool true)).

(** Modelled from the spec: the menu store ([../store/menu]) is not
    among the sources.  It maps a key to its record and the path it was
    registered at; add-menu is an upsert that overwrites what the key
    held, remove-menu deletes by key. *)
Abbreviation MenuStore := (gmap JsVal (MenuInfo * Path)).

(** Modelled from the spec: remove-menu(key) of the missing store. *)
Definition removeMenu (k : JsVal) (store : MenuStore) : MenuStore :=
  delete k store.

(** Modelled from the spec: add-menu(record, path) of the missing
    store, an upsert under the key of the record. *)
Definition addMenu (info : MenuInfo) (at_path : Path) (store : MenuStore)
    : MenuStore :=
  <[key info := (info, at_path)]> store.

Definition apply_call (store : MenuStore) (c : StoreCall) : MenuStore :=
  match c with
  | AddMenu info at_path => addMenu info at_path store
  | RemoveMenu k => removeMenu k store
  end.

Definition apply_calls (cs : list StoreCall) (store : MenuStore) : MenuStore :=
  fold_left apply_call cs store.

(** Modelled from the spec: [useWatch] ([./useWatch]) is not among the
    sources.  The slot of a watch is empty before the first evaluation
    and afterwards holds the observed list and the [filteredRoutes] of
    the cleanup registered last.  An evaluation runs that cleanup, then
    the effect; an exception leaving the cleanup is reported as the
    completion of the evaluation and does not keep the effect from
    running, as with an effect of React.  Whether two observed lists
    count as the same is left to [same_deps]. *)
Definition WatchSlot := option (list Entry * list Entry).

(** Modelled from the spec: one evaluation of the missing [useWatch]
    around the effect of [useRegisterMenu]; [previous] is the
    [filteredRoutes] of the cleanup registered by the evaluation
    before. *)
Definition evaluate (routes : list Entry) (filterFn : Entry -> bool)
    (previous : option (list Entry))
    : list StoreCall * Completion * option (list Entry) :=
  let '(removed, done) :=
    match previous with
    | Some filteredRoutes => register_cleanup filteredRoutes
    | None => ([], Normal)
    end in
  let '(added, filteredRoutes) := register_effect routes filterFn in
  (removed ++ added, done, Some filteredRoutes).

(** Modelled from the spec: on teardown the missing [useWatch] runs
    the registered cleanup once. *)
Definition teardown (previous : option (list Entry))
    : list StoreCall * Completion :=
  match previous with
  | Some filteredRoutes => register_cleanup filteredRoutes
  | None => ([], Normal)
  end.

Section Watch.
Variable same_deps : list Entry -> list Entry -> bool.

(** [useRegisterMenu routes filterFn], one render. *)
Definition useRegisterMenu (routes : list Entry) (filterFn : Entry -> bool)
    (slot : WatchSlot) : list StoreCall * Completion * WatchSlot :=
  match slot with
  | Some (observed, filteredRoutes) =>
      if same_deps observed routes
      then ([], Normal, slot)
      else
        let '(cs, done, registered) :=
          evaluate routes filterFn (Some filteredRoutes) in
        (cs, done, option_map (fun f => (routes, f)) registered)
  | None =>
      let '(cs, done, registered) := evaluate routes filterFn None in
      (cs, done, option_map (fun f => (routes, f)) registered)
  end.

(** ** The hook *)

Record HookState := {
  hs_state : StateSlot;
  hs_watch_resources : WatchSlot;
  hs_watch_routes : WatchSlot;
}.

Definition unmounted : HookState :=
  {| hs_state := None; hs_watch_resources := None; hs_watch_routes := None |}.

(** The values of the object the hook returns. *)
Inductive ReturnProperty :=
| REntries (l : list Entry)
| RElements (l : list ReactElement).

(** The object literal of the [return] statement. *)
Definition return_fields (r : RoutesAndResources)
    : list (string * ReturnProperty) :=
  [("customRoutesWithLayout", REntries (customRoutesWithLayout r));
   ("customRoutesWithoutLayout", RElements (customRoutesWithoutLayout r));
   ("resources", REntries (resources r));
   ("components", RElements (components r))].

(** [AdminRouterStatus]: declared at the end of the module. *)
Inductive AdminRouterStatus := loading | empty | ready.

Record Rendered := {
  returned : list (string * ReturnProperty);
  store_calls : list StoreCall;
  completion : Completion;
  next : HookState;
}.

(** [useConfigureAdminRouterFromChildren], one render: the state hook,
    the two registrars in call order, the returned object.  The effects
    of the two registrars run one after the other; an exception in the
    first does not keep the second from running. *)
Definition useConfigureAdminRouterFromChildren (nodes : ReactNode)
    (hs : HookState) : Rendered :=
  let '(routesAndResources, slot) :=
    useRoutesAndResourcesFromChildren nodes (hs_state hs) in
  let '(cs1, done1, w1) :=
    useRegisterMenu (resources routesAndResources) admit_all
                    (hs_watch_resources hs) in
  let '(cs2, done2, w2) :=
    useRegisterMenu (customRoutesWithLayout routesAndResources) without_noMenu
                    (hs_watch_routes hs) in
  {| returned := return_fields routesAndResources;
     store_calls := cs1 ++ cs2;
     completion := match done1 with Normal => done2 | Thrown _ => done1 end;
     next := {| hs_state := slot; hs_watch_resources := w1;
                hs_watch_routes := w2 |} |}.

End Watch.

(** ** Arrays as heap objects *)

(** The classifier pushes onto arrays and stores the [path] array it
    was given in the entries it builds, by reference.  Here an array is
    a location of a heap; [push] updates the heap in place, an array
    literal allocates. *)
Definition loc := nat.

Inductive HeapCell :=
| HSegment (seg : TushanCategoryPathInfo)
| HEntry (path_ref : loc) (e : ReactElement)
| HElement (e : ReactElement).

Abbreviation Heap := (list (list HeapCell)).

(** An array literal. *)
Definition new_array (contents : list HeapCell) (h : Heap) : loc * Heap :=
  (length h, h ++ [contents]).

(** The contents of the array at [l]. *)
Definition read_array (l : loc) (h : Heap) : list HeapCell :=
  default [] (h !! l).

(** [array.push(...xs)] *)
Definition array_push (l : loc) (xs : list HeapCell) (h : Heap) : Heap :=
  <[l := read_array l h ++ xs]> h.

Record Arrays := {
  a_withLayout : loc;
  a_withoutLayout : loc;
  a_resources : loc;
  a_components : loc;
}.

(** The four [const ... = []] at the head of the classifier. *)
Definition new_arrays (h : Heap) : Arrays * Heap :=
  let '(l1, h1) := new_array [] h in
  let '(l2, h2) := new_array [] h1 in
  let '(l3, h3) := new_array [] h2 in
  let '(l4, h4) := new_array [] h3 in
  ({| a_withLayout := l1; a_withoutLayout := l2;
      a_resources := l3; a_components := l4 |}, h4).

(** The four [push(...sub.bucket)]. *)
Definition push_spread_heap (sub acc : Arrays) (h : Heap) : Heap :=
  let h1 := array_push (a_withLayout acc) (read_array (a_withLayout sub) h) h in
  let h2 :=
    array_push (a_withoutLayout acc) (read_array (a_withoutLayout sub) h1) h1 in
  let h3 := array_push (a_resources acc) (read_array (a_resources sub) h2) h2 in
  array_push (a_components acc) (read_array (a_components sub) h3) h3.

(** The callback loop on the heap; [path] is the location of the path
    array, [acc] the locations of the four arrays of the running call. *)
Fixpoint forEachChild_heap (nodes : ReactNode) (path : loc) (acc : Arrays)
    (h : Heap) : Heap :=
  match nodes with
  | NArray items =>
      (fix each (l : list ReactNode) (h : Heap) :=
         match l with
         | [] => h
         | n :: l' => each l' (forEachChild_heap n path acc h)
         end) items h
  | NElement (Element ty ch pr as e) =>
      let h1 :=
        if type_is ty Fragment
        then
          let '(sub, h') := new_arrays h in
          push_spread_heap sub acc (forEachChild_heap ch path sub h')
        else h in
      let h2 :=
        if type_is ty Category
        then
          let '(path', h') :=
            new_array (read_array path h1 ++ [HSegment pr]) h1 in
          let '(sub, h'') := new_arrays h' in
          push_spread_heap sub acc (forEachChild_heap ch path' sub h'')
        else h1 in
      let h3 :=
        if type_is ty CustomRoute
        then (if truthy (js_get pr "noLayout")
              then array_push (a_withoutLayout acc) [HElement e] h2
              else array_push (a_withLayout acc) [HEntry path e] h2)
        else h2 in
      let h4 :=
        if type_is ty Resource
        then array_push (a_resources acc) [HEntry path e] h3
        else h3 in
      array_push (a_components acc) [HElement e] h4
  | _ => h
  end.

Definition getRoutesAndResourceFromNodes_heap (nodes : ReactNode) (path : loc)
    (h : Heap) : Arrays * Heap :=
  let '(acc, h') := new_arrays h in
  (acc, forEachChild_heap nodes path acc h').

(** Reading a heap array back as a value. *)
Definition path_of_heap (h : Heap) (l : loc) : Path :=
  omap (fun c => match c with HSegment seg => Some seg | _ => None end)
       (read_array l h).
Definition entries_of_heap (h : Heap) (l : loc) : list Entry :=
  omap (fun c => match c with
                 | HEntry p e => Some {| path := path_of_heap h p; element := e |}
                 | _ => None
                 end)
       (read_array l h).
Definition elements_of_heap (h : Heap) (l : loc) : list ReactElement :=
  omap (fun c => match c with HElement e => Some e | _ => None end)
       (read_array l h).
Definition result_of_heap (h : Heap) (a : Arrays) : RoutesAndResources :=
  {| customRoutesWithLayout := entries_of_heap h (a_withLayout a);
     customRoutesWithoutLayout := elements_of_heap h (a_withoutLayout a);
     resources := entries_of_heap h (a_resources a);
     components := elements_of_heap h (a_components a) |}.

(** The arrays a running call pushes onto. *)
Definition writes_to (acc : Arrays) (l : loc) : Prop :=
  l = a_withLayout acc \/ l = a_withoutLayout acc \/
  l = a_resources acc \/ l = a_components acc.

(** [frames acc h h']: going from [h] to [h'] no array was lost and
    every array of [h] other than those of [acc] has kept its
    contents. *)
Definition frames (acc : Arrays) (h h' : Heap) : Prop :=
  length h <= length h' /\
  forall l, l < length h -> ~ writes_to acc l -> h' !! l = h !! l.

(** The cell [c] is the entry [x]: it holds the element of [x] and a
    reference to an array that reads as the path of [x]; the array is
    the path array [here] of the running call or one allocated at or
    after [lo], and it holds the cells of [here] followed by segments
    [cs], none exactly when it is [here] itself. *)
Definition entry_cell (h : Heap) (here : loc) (lo : nat)
    (c : HeapCell) (x : Entry) : Prop :=
  exists p cs, c = HEntry p (element x) /\ (p = here \/ lo <= p) /\
            p < length h /\ path_of_heap h p = path x /\
            read_array p h = read_array here h ++ map HSegment cs /\
            (cs = [] <-> p = here).

(** [represents h0 here acc h r]: since the heap [h0] the running call
    has pushed onto its four arrays cells that read as the lists of [r],
    and has left every other array of [h0] alone. *)
Definition represents (h0 : Heap) (here : loc) (acc : Arrays) (h : Heap)
    (r : RoutesAndResources) : Prop :=
  frames acc h0 h /\
  exists wl rs,
    read_array (a_withLayout acc) h = read_array (a_withLayout acc) h0 ++ wl /\
    Forall2 (entry_cell h here (length h0)) wl (customRoutesWithLayout r) /\
    read_array (a_withoutLayout acc) h =
      read_array (a_withoutLayout acc) h0
        ++ map HElement (customRoutesWithoutLayout r) /\
    read_array (a_resources acc) h = read_array (a_resources acc) h0 ++ rs /\
    Forall2 (entry_cell h here (length h0)) rs (resources r) /\
    read_array (a_components acc) h =
      read_array (a_components acc) h0 ++ map HElement (components r).

(** What a call may assume of its arguments: the path array and the
    four arrays exist, the four arrays are distinct, and none of them is
    the path array. *)
Definition call_ready (h0 : Heap) (here : loc) (acc : Arrays) : Prop :=
  here < length h0 /\ ~ writes_to acc here /\
  (forall l, writes_to acc l -> l < length h0) /\
  NoDup [a_withLayout acc; a_withoutLayout acc;
         a_resources acc; a_components acc].

(** ** Auxiliary notions for the properties below *)

(** A node on which the callback returns at once: it is neither an
    element nor an array that [Children.forEach] flattens. *)
Definition ignored (n : ReactNode) : bool :=
  match n with
  | NArray _ | NElement _ => false
  | _ => true
  end.

(** The tree with every visited Fragment replaced by its children. *)
Fixpoint unwrap_fragments (n : ReactNode) : ReactNode :=
  match n with
  | NArray items => NArray (map unwrap_fragments items)
  | NElement (Element Fragment ch pr) => unwrap_fragments ch
  | NElement (Element Category ch pr) =>
      NElement (Element Category (unwrap_fragments ch) pr)
  | other => other
  end.

(** The entry [x] with [outer] put in front of its path. *)
Definition below (outer : Path) (x : Entry) : Entry :=
  {| path := outer ++ path x; element := element x |}.

(** The items of a state array read depth-first, nested arrays
    opened (what [flat(Infinity)] returns). *)
Fixpoint flat_cell {A} (c : Cell A) : list A :=
  match c with
  | Item x => [x]
  | Nested cells =>
      (fix each (l : list (Cell A)) :=
         match l with
         | [] => []
         | c' :: l' => flat_cell c' ++ each l'
         end) cells
  end.
Definition flat_cells {A} (l : list (Cell A)) : list A :=
  concat (map flat_cell l).

(** The first render of the hook. *)
Definition mount (same_deps : list Entry -> list Entry -> bool)
    (nodes : ReactNode) : Rendered :=
  useConfigureAdminRouterFromChildren same_deps nodes unmounted.

(** The cell [c] of the heap [h'] is the entry [x] of a call that was
    given the path array [here] in the heap [h0]: the array [c] refers
    to holds the cells [here] held followed by the segments [cs] that
    the path of [x] has beyond the starting path; with no such segment
    it is [here] itself, otherwise an array allocated after the four
    arrays of the call. *)
Definition holds_path_by_reference (h0 h' : Heap) (here : loc)
    (c : HeapCell) (x : Entry) : Prop :=
  exists p cs,
    c = HEntry p (element x) /\
    path x = path_of_heap h0 here ++ cs /\
    read_array p h' = read_array here h0 ++ map HSegment cs /\
    ((cs = [] /\ p = here) \/ (cs <> [] /\ length h0 + 4 <= p < length h')).

(** Small trees used in the examples. *)
Module Samples.
Definition resource (name : string) : ReactElement :=
  Element Resource NUndefined [("name", JStr name); ("label", JStr name)].
Definition route (name : string) (extra : JsObject) : ReactElement :=
  Element CustomRoute (NElement (Element (OtherType "div") NUndefined []))
          (("name", JStr name) :: extra).
Definition category (name : string) (ch : ReactNode) : ReactElement :=
  Element Category ch [("name", JStr name)].
Definition fragment (ch : ReactNode) : ReactElement :=
  Element Fragment ch [].
Definition tree : ReactNode :=
  NArray [ NElement (resource "users");
           NBool false;
           NElement (category "blog"
             (NArray [ NElement (resource "posts");
                       NElement (fragment (NElement (route "stats" [])));
                       NElement (route "login" [("noLayout", JBool true)]) ])) ].
End Samples.

(** * Properties *)

Example classify_tree_resources :
  resources (getRoutesAndResourceFromNodes Samples.tree []) =
  [ {| path := []; element := Samples.resource "users" |};
    {| path := [[("name", JStr "blog")]]; element := Samples.resource "posts" |} ].
Proof. reflexivity. Qed.

Example classify_tree_components_length :
  length (components (getRoutesAndResourceFromNodes Samples.tree [])) = 6.
Proof. reflexivity. Qed.

Example classify_tree_heap :
  let '(a, h) := getRoutesAndResourceFromNodes_heap Samples.tree 0 [[]] in
  result_of_heap h a = getRoutesAndResourceFromNodes Samples.tree [] /\
  h !! 0 = Some [].
Proof. vm_compute. split; reflexivity. Qed.

(** ** Induction over nodes *)

Lemma ReactNode_nested_ind (P : ReactNode -> Prop) :
  P NNull -> P NUndefined -> (forall b, P (NBool b)) ->
  (forall s, P (NText s)) -> (forall z, P (NNumber z)) ->
  (forall items, Forall P items -> P (NArray items)) ->
  (forall ty ch pr, P ch -> P (NElement (Element ty ch pr))) ->
  forall n, P n.
Proof.
  intros Hnull Hundef Hbool Htext Hnum Harr Helem.
  fix IH 1. intros [ | | b | s | z | items | [ty ch pr]].
  - exact Hnull.
  - exact Hundef.
  - apply Hbool.
  - apply Htext.
  - apply Hnum.
  - apply Harr. revert items. fix IHitems 1. intros [|n items].
    + constructor.
    + constructor; [apply IH | apply IHitems].
  - apply Helem, IH.
Qed.

(** ** The classifier in terms of the visits *)

Lemma RoutesAndResources_eq (a b : RoutesAndResources) :
  customRoutesWithLayout a = customRoutesWithLayout b ->
  customRoutesWithoutLayout a = customRoutesWithoutLayout b ->
  resources a = resources b ->
  components a = components b ->
  a = b.
Proof. destruct a, b; simpl; congruence. Qed.

Lemma push_spread_empty acc : push_spread empty_result acc = acc.
Proof. destruct acc; unfold push_spread; simpl; by rewrite !app_nil_r. Qed.

Lemma push_spread_no_visit start acc :
  push_spread (buckets_of start []) acc = acc.
Proof. apply push_spread_empty. Qed.

Lemma buckets_of_app start vs ws :
  buckets_of start (vs ++ ws) =
  push_spread (buckets_of start ws) (buckets_of start vs).
Proof.
  apply RoutesAndResources_eq; simpl;
    by rewrite ?List.filter_app, ?map_app.
Qed.

Lemma push_spread_assoc a b c :
  push_spread a (push_spread b c) = push_spread (push_spread a b) c.
Proof. apply RoutesAndResources_eq; simpl; by rewrite app_assoc. Qed.

Lemma buckets_of_under start seg vs :
  buckets_of start (map (under seg) vs) = buckets_of (start ++ [seg]) vs.
Proof.
  apply RoutesAndResources_eq; simpl.
  - induction vs as [|[cs e] vs IH]; simpl; [done|].
    destruct (goes_withLayout e); simpl; [|done].
    rewrite IH. unfold entry_at; simpl. by rewrite <- app_assoc.
  - induction vs as [|[cs e] vs IH]; simpl; [done|].
    destruct (goes_withoutLayout e); simpl; by rewrite IH.
  - induction vs as [|[cs e] vs IH]; simpl; [done|].
    destruct (goes_resources e); simpl; [|done].
    rewrite IH. unfold entry_at; simpl. by rewrite <- app_assoc.
  - by rewrite map_map.
Qed.

(** What the callback does with one element once its subtree is
    classified. *)
Lemma buckets_of_single start e :
  buckets_of start [([], e)] =
  push_component e
    (let acc3 :=
       if type_is (type e) CustomRoute
       then (if truthy (js_get (props e) "noLayout")
             then push_withoutLayout e empty_result
             else push_withLayout {| path := start; element := e |} empty_result)
       else empty_result in
     if type_is (type e) Resource
     then push_resource {| path := start; element := e |} acc3
     else acc3).
Proof.
  destruct e as [ty ch pr]. unfold buckets_of, goes_withLayout,
    goes_withoutLayout, goes_resources, entry_at; simpl.
  destruct ty; simpl; try destruct (truthy (js_get pr "noLayout")); simpl;
    by rewrite ?app_nil_r.
Qed.

Lemma forEachChild_visits nodes :
  forall start acc,
    forEachChild nodes start acc =
    push_spread (buckets_of start (visits nodes)) acc.
Proof.
  induction nodes as [ | | b | s | z | items IH | ty ch pr IH]
    using ReactNode_nested_ind; intros start acc;
    try (simpl; by rewrite push_spread_no_visit).
  - simpl. revert acc. induction IH as [|n items Hn _ IHitems]; intros acc.
    + by rewrite push_spread_no_visit.
    + rewrite IHitems, Hn, buckets_of_app. apply push_spread_assoc.
  - cbn [forEachChild visits].
    rewrite buckets_of_app, buckets_of_single. cbn [type props].
    rewrite !IH.
    pose proof (buckets_of_under start pr (visits ch)) as Hu.
    unfold buckets_of in Hu. injection Hu as Hu1 Hu2 Hu3 Hu4.
    destruct ty; simpl;
      try destruct (truthy (js_get pr "noLayout"));
      apply RoutesAndResources_eq; simpl;
      rewrite ?Hu1, ?Hu2, ?Hu3, ?Hu4, ?app_nil_r, <- ?app_assoc; done.
Qed.

Lemma classifier_visits nodes start :
  getRoutesAndResourceFromNodes nodes start = buckets_of start (visits nodes).
Proof.
  unfold getRoutesAndResourceFromNodes. rewrite forEachChild_visits.
  apply RoutesAndResources_eq; done.
Qed.

(** ** Visits and the [reached] relation *)

Lemma visits_array items :
  visits (NArray items) = concat (map visits items).
Proof. induction items as [|n items IH]; simpl; [done|]. by f_equal. Qed.

Lemma map_snd_under seg vs : map snd (map (under seg) vs) = map snd vs.
Proof. by rewrite map_map. Qed.

Lemma visits_reached nodes :
  forall cs e, In (cs, e) (visits nodes) -> reached nodes cs e.
Proof.
  induction nodes as [ | | b | s | z | items IH | ty ch pr IH]
    using ReactNode_nested_ind; intros cs e Hin; try (by destruct Hin).
  - rewrite visits_array in Hin. apply in_concat in Hin as (vs & Hvs & Hin).
    apply in_map_iff in Hvs as (n & <- & Hn).
    rewrite Forall_forall in IH.
    apply reached_item with n; [done|]. apply IH; [|done].
    by apply list_elem_of_In.
  - cbn [visits] in Hin. apply in_app_or in Hin as [Hin|[Heq|[]]].
    + destruct ty; try (by destruct Hin).
      * apply reached_fragment, IH, Hin.
      * apply in_map_iff in Hin as ([cs' e'] & Heq & Hin).
        unfold under in Heq; simpl in Heq. injection Heq as <- <-.
        apply reached_category, IH, Hin.
    + injection Heq as <- <-. apply reached_here.
Qed.

Lemma reached_visits nodes cs e :
  reached nodes cs e -> In (cs, e) (visits nodes).
Proof.
  induction 1 as [items n cs e Hn _ IH | e | ch pr cs e _ IH | ch pr cs e _ IH].
  - rewrite visits_array. apply in_concat. exists (visits n). split; [|done].
    by apply in_map.
  - destruct e as [ty ch pr]. cbn [visits]. apply in_or_app. right. by left.
  - cbn [visits]. apply in_or_app. by left.
  - cbn [visits]. apply in_or_app. left.
    apply in_map_iff. by exists (cs, e).
Qed.

Lemma reached_iff_visits nodes cs e :
  reached nodes cs e <-> In (cs, e) (visits nodes).
Proof. split; [apply reached_visits | apply visits_reached]. Qed.

(** ** Membership in the four arrays *)

Lemma in_withLayout nodes start q e :
  In {| path := q; element := e |}
     (customRoutesWithLayout (getRoutesAndResourceFromNodes nodes start)) <->
  goes_withLayout e = true /\ exists cs, reached nodes cs e /\ q = start ++ cs.
Proof.
  rewrite classifier_visits. simpl. rewrite in_map_iff. split.
  - intros ([cs e'] & Heq & Hin). apply filter_In in Hin as [Hin Hgo].
    unfold entry_at in Heq; simpl in *. injection Heq as <- <-.
    split; [done|]. exists cs. split; [|done]. by apply visits_reached.
  - intros (Hgo & cs & Hr & ->). exists (cs, e). split; [done|].
    apply filter_In. split; [|done]. by apply reached_visits.
Qed.

Lemma in_resources nodes start q e :
  In {| path := q; element := e |}
     (resources (getRoutesAndResourceFromNodes nodes start)) <->
  goes_resources e = true /\ exists cs, reached nodes cs e /\ q = start ++ cs.
Proof.
  rewrite classifier_visits. simpl. rewrite in_map_iff. split.
  - intros ([cs e'] & Heq & Hin). apply filter_In in Hin as [Hin Hgo].
    unfold entry_at in Heq; simpl in *. injection Heq as <- <-.
    split; [done|]. exists cs. split; [|done]. by apply visits_reached.
  - intros (Hgo & cs & Hr & ->). exists (cs, e). split; [done|].
    apply filter_In. split; [|done]. by apply reached_visits.
Qed.

Lemma in_withoutLayout nodes start e :
  In e (customRoutesWithoutLayout (getRoutesAndResourceFromNodes nodes start)) <->
  goes_withoutLayout e = true /\ exists cs, reached nodes cs e.
Proof.
  rewrite classifier_visits. simpl. rewrite in_map_iff. split.
  - intros ([cs e'] & Heq & Hin). apply filter_In in Hin as [Hin Hgo].
    simpl in *. subst e'. split; [done|]. exists cs. by apply visits_reached.
  - intros (Hgo & cs & Hr). exists (cs, e). split; [done|].
    apply filter_In. split; [|done]. by apply reached_visits.
Qed.

Lemma in_components nodes start e :
  In e (components (getRoutesAndResourceFromNodes nodes start)) <->
  exists cs, reached nodes cs e.
Proof.
  rewrite classifier_visits. simpl. rewrite in_map_iff. split.
  - intros ([cs e'] & Heq & Hin). simpl in *. subst e'.
    exists cs. by apply visits_reached.
  - intros (cs & Hr). exists (cs, e). split; [done|]. by apply reached_visits.
Qed.

Lemma type_is_true a b : type_is a b = true <-> a = b.
Proof.
  destruct a, b; simpl; try (split; (done || discriminate)).
  rewrite String.eqb_eq. split; congruence.
Qed.

Lemma goes_withLayout_spec e :
  goes_withLayout e = true <->
  type e = CustomRoute /\ truthy (js_get (props e) "noLayout") = false.
Proof.
  unfold goes_withLayout. rewrite andb_true_iff, type_is_true, negb_true_iff.
  done.
Qed.

Lemma goes_withoutLayout_spec e :
  goes_withoutLayout e = true <->
  type e = CustomRoute /\ truthy (js_get (props e) "noLayout") = true.
Proof. unfold goes_withoutLayout. by rewrite andb_true_iff, type_is_true. Qed.

Lemma goes_resources_spec e : goes_resources e = true <-> type e = Resource.
Proof. apply type_is_true. Qed.

(** ** Paths of the classified entries *)

(** C5.  For every tree and starting path, an entry [{ path, element }]
    is in the resource list exactly when its element is a Resource the
    traversal visits and its path is the starting path followed by the
    segments of the Categories enclosing that visit, outermost first; the
    same holds of the layout-wrapped list and the CustomRoute elements
    whose [noLayout] is not truthy.  By the definition of [reached] a
    Category contributes its props without [children], a Fragment and an
    array contribute nothing, and the visited element itself contributes
    nothing. *)
Theorem entry_path_is_start_then_enclosing_categories
    (nodes : ReactNode) (start q : Path) (e : ReactElement) :
  (In {| path := q; element := e |}
      (resources (getRoutesAndResourceFromNodes nodes start)) <->
   type e = Resource /\
   exists cs, reached nodes cs e /\ q = start ++ cs) /\
  (In {| path := q; element := e |}
      (customRoutesWithLayout (getRoutesAndResourceFromNodes nodes start)) <->
   (type e = CustomRoute /\ truthy (js_get (props e) "noLayout") = false) /\
   exists cs, reached nodes cs e /\ q = start ++ cs).
Proof.
  split.
  - rewrite in_resources. by rewrite goes_resources_spec.
  - rewrite in_withLayout. by rewrite goes_withLayout_spec.
Qed.

(** ** Each visit is classified once *)

Lemma bucket_lengths start vs :
  let r := buckets_of start vs in
  length (customRoutesWithLayout r) + length (customRoutesWithoutLayout r)
    + length (resources r) =
  length (List.filter
            (fun v => type_is (type (snd v)) CustomRoute
                      || type_is (type (snd v)) Resource) vs).
Proof.
  simpl. rewrite !length_map.
  induction vs as [|[cs [ty ch pr]] vs IH]; [done|].
  unfold goes_withLayout, goes_withoutLayout, goes_resources in *.
  cbn [List.filter snd type props].
  destruct ty; simpl; try destruct (truthy (js_get pr "noLayout")); simpl;
    simpl in IH; lia.
Qed.

(** C6.  For every tree and starting path: the passthrough list is the
    list of the visited elements, one item per visit, in the order in
    which the callback finishes with them; the three classified lists
    together hold one item per visit of a CustomRoute or Resource
    element; and a visited leaf element is in exactly one of the three
    lists when it is a CustomRoute or a Resource and in none of them
    otherwise. *)
Theorem every_visit_is_classified_once (nodes : ReactNode) (start : Path) :
  let r := getRoutesAndResourceFromNodes nodes start in
  components r = map snd (visits nodes) /\
  length (customRoutesWithLayout r) + length (customRoutesWithoutLayout r)
    + length (resources r) =
  length (List.filter
            (fun v => type_is (type (snd v)) CustomRoute
                      || type_is (type (snd v)) Resource) (visits nodes)) /\
  forall cs e, reached nodes cs e -> is_leaf e = true ->
    let listed_withLayout :=
      exists q, In {| path := q; element := e |} (customRoutesWithLayout r) in
    let listed_withoutLayout := In e (customRoutesWithoutLayout r) in
    let listed_resources :=
      exists q, In {| path := q; element := e |} (resources r) in
    match type e with
    | CustomRoute =>
        (listed_withLayout /\ ~ listed_withoutLayout /\ ~ listed_resources) \/
        (~ listed_withLayout /\ listed_withoutLayout /\ ~ listed_resources)
    | Resource => ~ listed_withLayout /\ ~ listed_withoutLayout /\ listed_resources
    | _ => ~ listed_withLayout /\ ~ listed_withoutLayout /\ ~ listed_resources
    end.
Proof.
  cbv zeta. split; [|split].
  - by rewrite classifier_visits.
  - rewrite classifier_visits. apply bucket_lengths.
  - intros cs e Hr _.
    assert (Hwl : (exists q, In {| path := q; element := e |}
               (customRoutesWithLayout (getRoutesAndResourceFromNodes nodes start)))
             <-> goes_withLayout e = true).
    { split.
      - intros (q & Hin). by apply in_withLayout in Hin as [? _].
      - intros Hgo. exists (start ++ cs). apply in_withLayout. eauto. }
    assert (Hres : (exists q, In {| path := q; element := e |}
               (resources (getRoutesAndResourceFromNodes nodes start)))
             <-> goes_resources e = true).
    { split.
      - intros (q & Hin). by apply in_resources in Hin as [? _].
      - intros Hgo. exists (start ++ cs). apply in_resources. eauto. }
    assert (Hwol : In e (customRoutesWithoutLayout
                           (getRoutesAndResourceFromNodes nodes start))
             <-> goes_withoutLayout e = true).
    { rewrite in_withoutLayout. split; [by intros [? _] | eauto]. }
    destruct e as [ty ch pr]; destruct ty; cbn [type];
      rewrite Hwl, Hres, Hwol;
      unfold goes_withLayout, goes_withoutLayout, goes_resources; simpl;
      try destruct (truthy (js_get pr "noLayout")); simpl;
      intuition congruence.
Qed.

(** A visited Resource sits in the resource list under its own path
    and in neither list of custom routes. *)
Lemma every_visit_is_classified_once_witness :
  let r := getRoutesAndResourceFromNodes Samples.tree [] in
  ~ (exists q, In {| path := q; element := Samples.resource "posts" |}
                  (customRoutesWithLayout r)) /\
  ~ In (Samples.resource "posts") (customRoutesWithoutLayout r) /\
  (exists q, In {| path := q; element := Samples.resource "posts" |}
                (resources r)).
Proof.
  destruct (every_visit_is_classified_once Samples.tree []) as (_ & _ & H).
  apply (H [[("name", JStr "blog")]] (Samples.resource "posts")).
  - eapply reached_item; [right; right; left; reflexivity|].
    apply reached_category.
    eapply reached_item; [left; reflexivity|]. apply reached_here.
  - reflexivity.
Defined.

(** ** Custom routes with and without layout *)

(** C7.  A visited CustomRoute whose [noLayout] is truthy is in the
    layout-free list, as the element itself, and under no path in the
    layout-wrapped list; a visited CustomRoute whose [noLayout] is not
    truthy is in the layout-wrapped list, paired with the path computed
    for the visit, and is not in the layout-free list. *)
Theorem custom_route_goes_by_noLayout
    (nodes : ReactNode) (start cs : Path) (e : ReactElement) :
  reached nodes cs e ->
  type e = CustomRoute ->
  let r := getRoutesAndResourceFromNodes nodes start in
  (truthy (js_get (props e) "noLayout") = true ->
   In e (customRoutesWithoutLayout r) /\
   forall q, ~ In {| path := q; element := e |} (customRoutesWithLayout r)) /\
  (truthy (js_get (props e) "noLayout") = false ->
   In {| path := start ++ cs; element := e |} (customRoutesWithLayout r) /\
   ~ In e (customRoutesWithoutLayout r)).
Proof.
  intros Hr Hty. cbv zeta. split; intros Hflag.
  - split.
    + apply in_withoutLayout. rewrite goes_withoutLayout_spec. eauto.
    + intros q Hin. apply in_withLayout in Hin as [Hgo _].
      apply goes_withLayout_spec in Hgo as [_ Hgo]. congruence.
  - split.
    + apply in_withLayout. rewrite goes_withLayout_spec. eauto.
    + intros Hin. apply in_withoutLayout in Hin as [Hgo _].
      apply goes_withoutLayout_spec in Hgo as [_ Hgo]. congruence.
Qed.

Lemma custom_route_goes_by_noLayout_witness :
  let login := Samples.route "login" [("noLayout", JBool true)] in
  let r := getRoutesAndResourceFromNodes Samples.tree [] in
  In login (customRoutesWithoutLayout r) /\
  forall q, ~ In {| path := q; element := login |} (customRoutesWithLayout r).
Proof.
  cbv zeta.
  refine (proj1 (custom_route_goes_by_noLayout Samples.tree []
                   [[("name", JStr "blog")]]
                   (Samples.route "login" [("noLayout", JBool true)]) _ _) _).
  - eapply reached_item; [right; right; left; reflexivity|].
    apply reached_category.
    eapply reached_item; [right; right; left; reflexivity|]. apply reached_here.
  - reflexivity.
  - reflexivity.
Defined.

(** ** Wrappers in the passthrough list *)

Lemma wrapper_block nodes cs e :
  reached nodes cs e ->
  is_leaf e = false ->
  exists before after,
    map snd (visits nodes) =
    before ++ map snd (visits (children e)) ++ e :: after.
Proof.
  induction 1 as [items n cs e Hn _ IH | e | ch pr cs e _ IH | ch pr cs e _ IH];
    intros Hwrap.
  - destruct (IH Hwrap) as (before & after & Heq).
    apply in_split in Hn as (l1 & l2 & ->).
    rewrite visits_array, map_app, concat_app, map_app. simpl.
    rewrite map_app, Heq.
    exists (map snd (concat (map visits l1)) ++ before),
           (after ++ map snd (concat (map visits l2))).
    by rewrite <- !app_assoc.
  - destruct e as [ty ch pr]. exists [], [].
    destruct ty; try discriminate; cbn [visits children];
      rewrite map_app, ?map_snd_under; done.
  - destruct (IH Hwrap) as (before & after & Heq).
    exists before, (after ++ [Element Fragment ch pr]).
    cbn [visits]. rewrite map_app, Heq. simpl. by rewrite <- !app_assoc.
  - destruct (IH Hwrap) as (before & after & Heq).
    exists before, (after ++ [Element Category ch pr]).
    cbn [visits]. rewrite map_app, map_snd_under, Heq. simpl.
    by rewrite <- !app_assoc.
Qed.

(** C9.  In the passthrough list of any tree, a visited Fragment or
    Category comes right after the whole passthrough list of the
    recursive call made for its children (same path for a Fragment, path
    extended by the segment of the Category for a Category): all entries
    contributed by its descendants come before it. *)
Theorem wrapper_follows_its_descendants
    (nodes : ReactNode) (start cs inner : Path)
    (ty : ElementType) (ch : ReactNode) (pr : JsObject) :
  reached nodes cs (Element ty ch pr) ->
  (ty = Fragment /\ inner = start ++ cs) \/
  (ty = Category /\ inner = start ++ cs ++ [pr]) ->
  exists before after,
    components (getRoutesAndResourceFromNodes nodes start) =
    before ++ components (getRoutesAndResourceFromNodes ch inner)
           ++ Element ty ch pr :: after.
Proof.
  intros Hr Hty. rewrite !classifier_visits. simpl.
  apply (wrapper_block nodes cs (Element ty ch pr) Hr).
  by destruct Hty as [[-> _]|[-> _]].
Qed.

Lemma wrapper_follows_its_descendants_witness :
  exists before after,
    components (getRoutesAndResourceFromNodes Samples.tree []) =
    before
    ++ components (getRoutesAndResourceFromNodes
                     (NElement (Samples.route "stats" []))
                     [[("name", JStr "blog")]])
    ++ Samples.fragment (NElement (Samples.route "stats" [])) :: after.
Proof.
  apply (wrapper_follows_its_descendants Samples.tree []
           [[("name", JStr "blog")]] [[("name", JStr "blog")]]
           Fragment (NElement (Samples.route "stats" [])) []).
  - eapply reached_item; [right; right; left; reflexivity|].
    apply reached_category.
    eapply reached_item; [right; left; reflexivity|]. apply reached_here.
  - left. split; reflexivity.
Defined.

(** ** The merge of the state holder *)

Lemma cell_size_nested {A} (cells : list (Cell A)) :
  cell_size (Nested cells) = S (cells_size cells).
Proof. reflexivity. Qed.

Lemma cells_size_app {A} (l1 l2 : list (Cell A)) :
  cells_size (l1 ++ l2) = cells_size l1 + cells_size l2.
Proof. induction l1 as [|c l1 IH]; simpl; [done|]. rewrite IH. lia. Qed.

(** Storing an array as one element never gives the array with the
    elements appended. *)
Lemma nested_is_not_appended {A} (previous new : list (Cell A)) :
  previous ++ [Nested new] <> previous ++ new.
Proof.
  intros Heq. apply (f_equal cells_size) in Heq.
  rewrite !cells_size_app in Heq. simpl in Heq.
  pose proof (cell_size_nested new) as Hn. simpl in Hn. lia.
Qed.

(** C2.  The updater stores each list of the new result as one nested
    element after the elements of the previous list; in no bucket and
    for no pair of states is the outcome the previous list with the new
    elements appended. *)
Theorem merge_nests_the_new_lists (previous new : StateValue) :
  let merged := mergeRoutesAndResources previous new in
  (sv_customRoutesWithLayout merged =
     sv_customRoutesWithLayout previous ++ [Nested (sv_customRoutesWithLayout new)]
   /\ sv_customRoutesWithoutLayout merged =
     sv_customRoutesWithoutLayout previous
       ++ [Nested (sv_customRoutesWithoutLayout new)]
   /\ sv_resources merged = sv_resources previous ++ [Nested (sv_resources new)]
   /\ sv_components merged =
     sv_components previous ++ [Nested (sv_components new)])
  /\ sv_customRoutesWithLayout merged <>
       sv_customRoutesWithLayout (merge_appending previous new)
  /\ sv_customRoutesWithoutLayout merged <>
       sv_customRoutesWithoutLayout (merge_appending previous new)
  /\ sv_resources merged <> sv_resources (merge_appending previous new)
  /\ sv_components merged <> sv_components (merge_appending previous new).
Proof.
  cbv zeta. simpl. split; [by repeat split|].
  repeat split; apply nested_is_not_appended.
Qed.

(** Merging the classification of one Resource into an empty state. *)
Example merge_one_resource :
  let users := {| path := []; element := Samples.resource "users" |} in
  let new :=
    state_of (getRoutesAndResourceFromNodes
                (NElement (Samples.resource "users")) []) in
  sv_resources (mergeRoutesAndResources (state_of empty_result) new)
    = [Nested [Item users]] /\
  sv_resources (merge_appending (state_of empty_result) new) = [Item users].
Proof. split; reflexivity. Qed.

(** ** The state holder across renders *)

Lemma renders_from_filled trees current :
  Forall (eq current) (renders trees (Some current)).
Proof.
  induction trees as [|t trees IH]; simpl; constructor; [done|apply IH].
Qed.

(** C3.  Whatever trees the later renders receive, every render of a
    mounted hook returns the classification of the tree of the first
    render: a changed tree is classified again, but the outcome is only
    the initial-state argument of a slot that is already filled. *)
Theorem later_renders_return_first_classification
    (first : ReactNode) (later : list ReactNode) :
  Forall (eq (getRoutesAndResourceFromNodes first []))
         (renders (first :: later) None).
Proof.
  simpl. constructor; [done|]. apply renders_from_filled.
Qed.

(** A second Resource added to the children is missing from the result
    of the second render. *)
Example added_resource_is_not_returned :
  let before := NArray [NElement (Samples.resource "users")] in
  let after := NArray [NElement (Samples.resource "users");
                       NElement (Samples.resource "posts")] in
  map resources (renders [before; after] None) =
    [ [{| path := []; element := Samples.resource "users" |}];
      [{| path := []; element := Samples.resource "users" |}] ] /\
  resources (getRoutesAndResourceFromNodes after []) =
    [ {| path := []; element := Samples.resource "users" |};
      {| path := []; element := Samples.resource "posts" |} ].
Proof. split; reflexivity. Qed.

(** With the tree unchanged the result is the one returned before. *)
Lemma unchanged_tree_same_result (nodes : ReactNode) (slot : StateSlot) :
  let '(r1, slot1) := useRoutesAndResourcesFromChildren nodes slot in
  useRoutesAndResourcesFromChildren nodes slot1 = (r1, slot1).
Proof. by destruct slot. Qed.

(** ** The object the hook returns *)

(** C4.  Whatever the children, the state of the hook and the
    comparison of the watch, the object the hook returns has the four
    list keys and no key [status]. *)
Theorem returned_object_has_no_status
    (same_deps : list Entry -> list Entry -> bool)
    (nodes : ReactNode) (hs : HookState) :
  let r := useConfigureAdminRouterFromChildren same_deps nodes hs in
  map fst (returned r) =
    ["customRoutesWithLayout"; "customRoutesWithoutLayout";
     "resources"; "components"] /\
  field_get (returned r) "status" = None.
Proof.
  unfold useConfigureAdminRouterFromChildren.
  destruct (useRoutesAndResourcesFromChildren nodes (hs_state hs)) as [rr slot].
  destruct (useRegisterMenu same_deps (resources rr) admit_all
              (hs_watch_resources hs)) as [[cs1 done1] w1].
  destruct (useRegisterMenu same_deps (customRoutesWithLayout rr)
              without_noMenu (hs_watch_routes hs)) as [[cs2 done2] w2].
  split; reflexivity.
Qed.

(** Children without any Resource: the returned object carries an empty
    resource list and nothing that says so. *)
Example no_resource_no_status :
  let r := useConfigureAdminRouterFromChildren (fun _ _ => false)
             (NArray []) unmounted in
  field_get (returned r) "resources" = Some (REntries []) /\
  field_get (returned r) "status" = None.
Proof. split; reflexivity. Qed.

(** ** The cleanup of the registrar *)

Lemma remove_call_throws (route : Entry) : remove_call route = Throw TypeError.
Proof. reflexivity. Qed.

(** C1.  The cleanup never reaches [removeMenu]: an entry
    [{ path, element }] has no key [props], so evaluating
    [route.props.name] for the first entry of the previous filtered list
    throws a TypeError.  With no entry the cleanup does nothing; with at
    least one it makes no call to the store and ends in the exception, so
    it agrees with removal by declared name on the empty list only. *)
Theorem cleanup_removes_nothing (filteredRoutes : list Entry) :
  register_cleanup filteredRoutes =
    ([], match filteredRoutes with
         | [] => Normal
         | _ :: _ => Thrown TypeError
         end) /\
  ((register_cleanup filteredRoutes).1 = cleanup_by_declared_name filteredRoutes
   <-> filteredRoutes = []).
Proof.
  split.
  - by destruct filteredRoutes.
  - by destruct filteredRoutes.
Qed.

(** Teardown runs the same cleanup. *)
Lemma teardown_removes_nothing (filteredRoutes : list Entry) :
  (teardown (Some filteredRoutes)).1 = [].
Proof. by destruct filteredRoutes. Qed.

(** Two resources are registered, then the list is observed again with
    ["posts"] dropped: the cleanup throws without a removal, the effect
    adds ["users"] again, and the record keyed ["posts"] is still in
    the store; removal by declared name would have taken it out. *)
Example dropped_resource_stays_registered :
  let users := {| path := []; element := Samples.resource "users" |} in
  let posts := {| path := []; element := Samples.resource "posts" |} in
  let '(cs1, done1, registered1) := evaluate [users; posts] admit_all None in
  let store1 := apply_calls cs1 ∅ in
  let '(cs2, done2, registered2) := evaluate [users] admit_all registered1 in
  let store2 := apply_calls cs2 store1 in
  is_Some (store1 !! JStr "users") /\
  is_Some (store1 !! JStr "posts") /\
  done1 = Normal /\
  cs2 = [AddMenu {| key := JStr "users"; label := JStr "users";
                     icon := JUndefined |} []] /\
  done2 = Thrown TypeError /\
  store2 !! JStr "posts" =
    Some ({| key := JStr "posts"; label := JStr "posts"; icon := JUndefined |},
          []) /\
  apply_calls (cleanup_by_declared_name [users; posts] ++ cs2) store1
    !! JStr "posts" = None /\
  is_Some (apply_calls (cleanup_by_declared_name [users; posts] ++ cs2) store1
    !! JStr "users").
Proof.
  cbv [evaluate register_effect register_cleanup forEach_calls remove_call
       read_name field_get entry_fields List.filter admit_all map add_call
       app apply_calls fold_left apply_call addMenu removeMenu
       cleanup_by_declared_name Samples.resource element props path key
       js_get String.eqb Ascii.eqb Bool.eqb].
  repeat split; simplify_map_eq; eauto.
Qed.

(** ** Routes kept out of the menu *)







(** The names have to be unique for this: when a route with [noMenu]
    and a route without it declare the same name, the second is
    registered under that name. *)
Lemma noMenu_name_is_registered_by_a_namesake :
  let hidden := Samples.route "stats" [("noMenu", JBool true)] in
  let shown := Samples.route "stats" [("label", JStr "Statistics")] in
  let r := useConfigureAdminRouterFromChildren (fun _ _ => false)
             (NArray [NElement hidden; NElement shown]) unmounted in
  field_get (returned r) "customRoutesWithLayout" =
    Some (REntries [ {| path := []; element := hidden |};
                     {| path := []; element := shown |} ]) /\
  js_get (props hidden) "noMenu" = JBool true /\
  js_get (props hidden) "name" = JStr "stats" /\
  store_calls r =
    [AddMenu {| key := JStr "stats"; label := JStr "Statistics";
                icon := JUndefined |} []].
Proof. vm_compute. repeat split; reflexivity. Qed.



(** ** The path array is only read *)

Lemma frames_refl acc (h : Heap) : frames acc h h.
Proof. split; [lia|done]. Qed.

Lemma frames_trans acc (h1 h2 h3 : Heap) :
  frames acc h1 h2 -> frames acc h2 h3 -> frames acc h1 h3.
Proof.
  intros [Hlen1 Hkeep1] [Hlen2 Hkeep2]. split; [lia|].
  intros l Hl Hout. rewrite Hkeep2; [|lia|done]. by apply Hkeep1.
Qed.

Lemma frames_push acc l xs (h : Heap) :
  writes_to acc l -> frames acc h (array_push l xs h).
Proof.
  intros Hw. unfold array_push. split.
  - by rewrite length_insert.
  - intros l' _ Hout. apply list_lookup_insert_ne. by intros ->.
Qed.

Lemma frames_new_array acc contents (h : Heap) :
  frames acc h (new_array contents h).2.
Proof.
  simpl. split.
  - rewrite length_app. lia.
  - intros l Hl _. by apply lookup_app_l.
Qed.

Lemma new_arrays_fresh (h : Heap) :
  let '(sub, h') := new_arrays h in
  length h' = length h + 4 /\
  (forall l, l < length h -> h' !! l = h !! l) /\
  (forall l, writes_to sub l -> length h <= l).
Proof.
  unfold new_arrays, new_array. simpl. split; [|split].
  - rewrite !length_app. simpl. lia.
  - intros l Hl. rewrite <- !app_assoc. by apply lookup_app_l.
  - unfold writes_to. simpl. rewrite !length_app. simpl.
    intros l [-> | [-> | [-> | ->]]]; lia.
Qed.

Lemma frames_push_spread sub acc (h : Heap) :
  frames acc h (push_spread_heap sub acc h).
Proof.
  unfold push_spread_heap.
  repeat (eapply frames_trans; [|apply frames_push; unfold writes_to; tauto]).
  apply frames_refl.
Qed.

(** A recursive call on fresh arrays followed by the four spreading
    pushes leaves alone what the caller does not push onto. *)
Lemma frames_recursive_call acc (h hh : Heap) :
  frames (new_arrays h).1 (new_arrays h).2 hh ->
  frames acc h (push_spread_heap (new_arrays h).1 acc hh).
Proof.
  pose proof (new_arrays_fresh h) as Hfresh.
  destruct (new_arrays h) as [sub h']. simpl.
  destruct Hfresh as (Hlen & Hold & Hsub). intros [Hlen' Hkeep].
  eapply frames_trans; [|apply frames_push_spread].
  split; [lia|]. intros l Hl _.
  rewrite Hkeep; [by apply Hold | lia |].
  intros Hw. apply Hsub in Hw. lia.
Qed.

Lemma forEachChild_heap_frames nodes :
  forall path acc (h : Heap), frames acc h (forEachChild_heap nodes path acc h).
Proof.
  induction nodes as [ | | b | s | z | items IH | ty ch pr IH]
    using ReactNode_nested_ind; intros path acc h;
    try apply frames_refl.
  - simpl. revert h. induction IH as [|n items Hn _ IHitems]; intros h.
    + apply frames_refl.
    + eapply frames_trans; [apply Hn | apply IHitems].
  - cbn [forEachChild_heap].
    set (h1 := if type_is ty Fragment then _ else h).
    assert (H1 : frames acc h h1).
    { subst h1. destruct (type_is ty Fragment); [|apply frames_refl].
      pose proof (frames_recursive_call acc h) as Hcall.
      destruct (new_arrays h) as [sub h']. apply Hcall, IH. }
    set (h2 := if type_is ty Category then _ else h1).
    assert (H2 : frames acc h1 h2).
    { subst h2. destruct (type_is ty Category); [|apply frames_refl].
      pose proof (frames_new_array acc (read_array path h1 ++ [HSegment pr]) h1)
        as Hnew.
      destruct (new_array (read_array path h1 ++ [HSegment pr]) h1)
        as [path' h'].
      eapply frames_trans; [exact Hnew|]. cbn [snd].
      pose proof (frames_recursive_call acc h') as Hcall.
      destruct (new_arrays h') as [sub h'']. apply Hcall, IH. }
    set (h3 := if type_is ty CustomRoute then _ else h2).
    assert (H3 : frames acc h2 h3).
    { subst h3. destruct (type_is ty CustomRoute); [|apply frames_refl].
      destruct (truthy (js_get pr "noLayout"));
        apply frames_push; unfold writes_to; tauto. }
    set (h4 := if type_is ty Resource then _ else h3).
    assert (H4 : frames acc h3 h4).
    { subst h4. destruct (type_is ty Resource); [|apply frames_refl].
      apply frames_push; unfold writes_to; tauto. }
    repeat (eapply frames_trans; [eassumption|]).
    apply frames_push; unfold writes_to; tauto.
Qed.

(** C10.  A call of the classifier leaves the path array it is given
    as it was: the array at the location of the starting path has the
    same contents after the call as before.  The same holds of every
    array that existed before the call. *)
Theorem classifier_leaves_path_unchanged
    (nodes : ReactNode) (path : loc) (h : Heap) :
  path < length h ->
  (getRoutesAndResourceFromNodes_heap nodes path h).2 !! path = h !! path /\
  forall l, l < length h ->
    (getRoutesAndResourceFromNodes_heap nodes path h).2 !! l = h !! l.
Proof.
  intros Hpath.
  assert (Hall : forall l, l < length h ->
            (getRoutesAndResourceFromNodes_heap nodes path h).2 !! l = h !! l).
  { intros l Hl. unfold getRoutesAndResourceFromNodes_heap.
    pose proof (new_arrays_fresh h) as Hfresh.
    destruct (new_arrays h) as [acc h']. simpl.
    destruct Hfresh as (Hlen & Hold & Hacc).
    destruct (forEachChild_heap_frames nodes path acc h') as [_ Hkeep].
    rewrite Hkeep; [by apply Hold | lia |].
    intros Hw. apply Hacc in Hw. lia. }
  split; [by apply Hall | exact Hall].
Qed.

Lemma classifier_leaves_path_unchanged_witness :
  let h := [[HSegment [("name", JStr "admin")]]] in
  (getRoutesAndResourceFromNodes_heap Samples.tree 0 h).2 !! 0 = h !! 0.
Proof.
  cbv zeta.
  refine (proj1 (classifier_leaves_path_unchanged Samples.tree 0
                   [[HSegment [("name", JStr "admin")]]] _)).
  simpl. lia.
Defined.

(** ** The heap run computes the classification *)

Lemma read_array_push_same l xs (h : Heap) :
  l < length h -> read_array l (array_push l xs h) = read_array l h ++ xs.
Proof.
  intros Hl. unfold array_push.
  unfold read_array at 1. by rewrite list_lookup_insert_eq.
Qed.

Lemma read_array_push_other l l' xs (h : Heap) :
  l <> l' -> read_array l' (array_push l xs h) = read_array l' h.
Proof.
  intros Hne. unfold array_push, read_array at 1 3.
  by rewrite list_lookup_insert_ne.
Qed.

Lemma read_array_frames acc (h h' : Heap) l :
  frames acc h h' -> l < length h -> ~ writes_to acc l ->
  read_array l h' = read_array l h.
Proof. intros [_ Hkeep] Hl Hout. unfold read_array. by rewrite Hkeep. Qed.

Lemma path_of_heap_frames acc (h h' : Heap) l :
  frames acc h h' -> l < length h -> ~ writes_to acc l ->
  path_of_heap h' l = path_of_heap h l.
Proof.
  intros Hf Hl Hout. unfold path_of_heap.
  by rewrite (read_array_frames acc h h').
Qed.

(** A reference held by an entry cell is never one of the four arrays
    of a ready call. *)
Lemma entry_ref_outside h0 here acc p :
  call_ready h0 here acc -> p = here \/ length h0 <= p -> ~ writes_to acc p.
Proof.
  intros (_ & Hhere & Halloc & _) [->|Hp]; [done|].
  intros Hw. apply Halloc in Hw. lia.
Qed.

Lemma entry_cell_frames h0 here acc (h h' : Heap) c x :
  call_ready h0 here acc -> length h0 <= length h -> frames acc h h' ->
  entry_cell h here (length h0) c x -> entry_cell h' here (length h0) c x.
Proof.
  intros Hready Hlen0 Hf (p & cs & -> & Hp & Hlen & Hpath & Hcells & Hcs).
  pose proof (entry_ref_outside h0 here acc p Hready Hp) as Hout.
  pose proof Hready as (Hhere & Hhere_out & _).
  exists p, cs. split; [done|]. split; [done|]. split; [destruct Hf; lia|].
  split; [|split; [|done]].
  - rewrite <- Hpath. by apply (path_of_heap_frames acc).
  - rewrite (read_array_frames acc h h' p), (read_array_frames acc h h' here);
      [done | done | lia | done | done..].
Qed.

Lemma represents_start h0 here acc : represents h0 here acc h0 empty_result.
Proof.
  split; [apply frames_refl|]. exists [], []. simpl.
  rewrite !app_nil_r. repeat split; constructor.
Qed.

Lemma call_ready_distinct h0 here acc :
  call_ready h0 here acc ->
  a_withLayout acc <> a_withoutLayout acc /\
  a_withLayout acc <> a_resources acc /\
  a_withLayout acc <> a_components acc /\
  a_withoutLayout acc <> a_resources acc /\
  a_withoutLayout acc <> a_components acc /\
  a_resources acc <> a_components acc.
Proof.
  intros (_ & _ & _ & Hnd).
  apply NoDup_cons in Hnd as [Ha Hnd].
  apply NoDup_cons in Hnd as [Hb Hnd].
  apply NoDup_cons in Hnd as [Hc _].
  repeat rewrite not_elem_of_cons in Ha.
  repeat rewrite not_elem_of_cons in Hb.
  repeat rewrite not_elem_of_cons in Hc. tauto.
Qed.

(** Pushing further cells onto the four arrays extends what the heap
    represents. *)
Lemma represents_extend h0 here acc (h h' : Heap) r d wl rs :
  call_ready h0 here acc ->
  represents h0 here acc h r ->
  frames acc h h' ->
  read_array (a_withLayout acc) h' = read_array (a_withLayout acc) h ++ wl ->
  Forall2 (entry_cell h' here (length h0)) wl (customRoutesWithLayout d) ->
  read_array (a_withoutLayout acc) h' =
    read_array (a_withoutLayout acc) h
      ++ map HElement (customRoutesWithoutLayout d) ->
  read_array (a_resources acc) h' = read_array (a_resources acc) h ++ rs ->
  Forall2 (entry_cell h' here (length h0)) rs (resources d) ->
  read_array (a_components acc) h' =
    read_array (a_components acc) h ++ map HElement (components d) ->
  represents h0 here acc h' (push_spread d r).
Proof.
  intros Hready (Hf0 & wl0 & rs0 & E1 & F1 & E2 & E3 & F3 & E4)
         Hf Ewl Fwl Ewol Ers Frs Ecs.
  split; [by eapply frames_trans|].
  exists (wl0 ++ wl), (rs0 ++ rs). simpl.
  rewrite Ewl, Ewol, Ers, Ecs, E1, E2, E3, E4, !map_app, <- !app_assoc.
  repeat split.
  - apply Forall2_app; [|done].
    eapply Forall2_impl; [exact F1|]. intros c x.
    apply (entry_cell_frames h0 here acc); [done| |done]. by destruct Hf0.
  - apply Forall2_app; [|done].
    eapply Forall2_impl; [exact F3|]. intros c x.
    apply (entry_cell_frames h0 here acc); [done| |done]. by destruct Hf0.
Qed.

Lemma represents_allocated h0 here acc (h : Heap) r l :
  call_ready h0 here acc -> represents h0 here acc h r ->
  writes_to acc l -> l < length h.
Proof.
  intros (_ & _ & Halloc & _) [[Hlen _] _] Hw. apply Halloc in Hw. lia.
Qed.

(** The path array still reads as it did when the call started. *)
Lemma represents_here h0 here acc (h : Heap) r :
  call_ready h0 here acc -> represents h0 here acc h r ->
  here < length h /\ path_of_heap h here = path_of_heap h0 here.
Proof.
  intros (Hhere & Hout & _) [Hf _]. split; [destruct Hf; lia|].
  by apply (path_of_heap_frames acc).
Qed.

(** The cell [HEntry here e] pushed by a call is the entry of [e] under
    the path the call was given. *)
Lemma entry_cell_here h0 here acc (h : Heap) r l xs e :
  call_ready h0 here acc -> represents h0 here acc h r -> writes_to acc l ->
  entry_cell (array_push l xs h) here (length h0) (HEntry here e)
             {| path := path_of_heap h0 here; element := e |}.
Proof.
  intros Hready Hrep Hw.
  destruct (represents_here _ _ _ _ _ Hready Hrep) as [Hlen Hpath].
  pose proof (frames_push acc l xs h Hw) as Hf.
  exists here, []. simpl. split; [done|]. split; [by left|].
  split; [destruct Hf; lia|]. split; [|split; [by rewrite app_nil_r|done]].
  rewrite <- Hpath. apply (path_of_heap_frames acc); [done..|].
  by destruct Hready as (_ & ? & _).
Qed.

(** The side goals of a single push: the frame, the array pushed onto,
    the three others, and the cells added. *)
Ltac push_goal h0 here acc h r :=
  first
    [ apply frames_push; unfold writes_to; tauto
    | apply read_array_push_other; congruence
    | apply read_array_push_same;
      apply (represents_allocated h0 here acc h r);
      [assumption | assumption | unfold writes_to; tauto]
    | constructor; [|constructor];
      apply (entry_cell_here h0 here acc h r);
      [assumption | assumption | unfold writes_to; tauto]
    | constructor ].

Lemma represents_push_component h0 here acc (h : Heap) r e :
  call_ready h0 here acc -> represents h0 here acc h r ->
  represents h0 here acc (array_push (a_components acc) [HElement e] h)
             (push_component e r).
Proof.
  intros Hready Hrep.
  destruct (call_ready_distinct _ _ _ Hready) as (N1 & N2 & N3 & N4 & N5 & N6).
  replace (push_component e r) with
    (push_spread {| customRoutesWithLayout := [];
                    customRoutesWithoutLayout := [];
                    resources := []; components := [e] |} r)
    by (apply RoutesAndResources_eq; simpl; by rewrite ?app_nil_r).
  apply (represents_extend h0 here acc h _ r _ [] []);
    [assumption | assumption | simpl; rewrite ?app_nil_r ..];
    push_goal h0 here acc h r.
Qed.

Lemma represents_push_withoutLayout h0 here acc (h : Heap) r e :
  call_ready h0 here acc -> represents h0 here acc h r ->
  represents h0 here acc (array_push (a_withoutLayout acc) [HElement e] h)
             (push_withoutLayout e r).
Proof.
  intros Hready Hrep.
  destruct (call_ready_distinct _ _ _ Hready) as (N1 & N2 & N3 & N4 & N5 & N6).
  replace (push_withoutLayout e r) with
    (push_spread {| customRoutesWithLayout := [];
                    customRoutesWithoutLayout := [e];
                    resources := []; components := [] |} r)
    by (apply RoutesAndResources_eq; simpl; by rewrite ?app_nil_r).
  apply (represents_extend h0 here acc h _ r _ [] []);
    [assumption | assumption | simpl; rewrite ?app_nil_r ..];
    push_goal h0 here acc h r.
Qed.

Lemma represents_push_withLayout h0 here acc (h : Heap) r e :
  call_ready h0 here acc -> represents h0 here acc h r ->
  represents h0 here acc (array_push (a_withLayout acc) [HEntry here e] h)
    (push_withLayout {| path := path_of_heap h0 here; element := e |} r).
Proof.
  intros Hready Hrep.
  destruct (call_ready_distinct _ _ _ Hready) as (N1 & N2 & N3 & N4 & N5 & N6).
  set (x := {| path := path_of_heap h0 here; element := e |}).
  replace (push_withLayout x r) with
    (push_spread {| customRoutesWithLayout := [x];
                    customRoutesWithoutLayout := [];
                    resources := []; components := [] |} r)
    by (apply RoutesAndResources_eq; simpl; by rewrite ?app_nil_r).
  apply (represents_extend h0 here acc h _ r _ [HEntry here e] []);
    [assumption | assumption | simpl; rewrite ?app_nil_r ..];
    push_goal h0 here acc h r.
Qed.

Lemma represents_push_resource h0 here acc (h : Heap) r e :
  call_ready h0 here acc -> represents h0 here acc h r ->
  represents h0 here acc (array_push (a_resources acc) [HEntry here e] h)
    (push_resource {| path := path_of_heap h0 here; element := e |} r).
Proof.
  intros Hready Hrep.
  destruct (call_ready_distinct _ _ _ Hready) as (N1 & N2 & N3 & N4 & N5 & N6).
  set (x := {| path := path_of_heap h0 here; element := e |}).
  replace (push_resource x r) with
    (push_spread {| customRoutesWithLayout := [];
                    customRoutesWithoutLayout := [];
                    resources := [x]; components := [] |} r)
    by (apply RoutesAndResources_eq; simpl; by rewrite ?app_nil_r).
  apply (represents_extend h0 here acc h _ r _ [] [HEntry here e]);
    [assumption | assumption | simpl; rewrite ?app_nil_r ..];
    push_goal h0 here acc h r.
Qed.

Lemma new_arrays_spec (h : Heap) :
  new_arrays h =
    ({| a_withLayout := length h; a_withoutLayout := length h + 1;
        a_resources := length h + 2; a_components := length h + 3 |},
     h ++ [[]; []; []; []]).
Proof.
  unfold new_arrays, new_array. rewrite !length_app. simpl.
  rewrite <- !app_assoc. simpl.
  replace (length h + 1 + 1 + 1) with (length h + 3) by lia.
  by replace (length h + 1 + 1) with (length h + 2) by lia.
Qed.

Lemma new_arrays_ready (h : Heap) here :
  here < length h -> call_ready (new_arrays h).2 here (new_arrays h).1.
Proof.
  intros Hhere. rewrite new_arrays_spec. simpl. unfold call_ready, writes_to.
  simpl. rewrite length_app. simpl. repeat split.
  - lia.
  - lia.
  - lia.
  - repeat (apply NoDup_cons; split;
            [repeat rewrite not_elem_of_cons; rewrite elem_of_nil; lia|]).
    apply NoDup_nil. done.
Qed.

Lemma new_arrays_empty (h : Heap) l :
  writes_to (new_arrays h).1 l -> read_array l (new_arrays h).2 = [].
Proof.
  rewrite new_arrays_spec. unfold writes_to, read_array. simpl.
  intros [-> | [-> | [-> | ->]]]; rewrite lookup_app_r by lia.
  - by replace (length h - length h) with 0 by lia.
  - by replace (length h + 1 - length h) with 1 by lia.
  - by replace (length h + 2 - length h) with 2 by lia.
  - by replace (length h + 3 - length h) with 3 by lia.
Qed.

Lemma length_array_push l xs (h : Heap) :
  length (array_push l xs h) = length h.
Proof. unfold array_push. apply length_insert. Qed.

(** What the four spreading pushes leave in the arrays of the caller. *)
Lemma push_spread_heap_reads sub acc (h : Heap) :
  NoDup [a_withLayout acc; a_withoutLayout acc;
         a_resources acc; a_components acc] ->
  (forall l, writes_to acc l -> l < length h) ->
  (forall l, writes_to sub l -> ~ writes_to acc l) ->
  let h' := push_spread_heap sub acc h in
  read_array (a_withLayout acc) h' =
    read_array (a_withLayout acc) h ++ read_array (a_withLayout sub) h /\
  read_array (a_withoutLayout acc) h' =
    read_array (a_withoutLayout acc) h ++ read_array (a_withoutLayout sub) h /\
  read_array (a_resources acc) h' =
    read_array (a_resources acc) h ++ read_array (a_resources sub) h /\
  read_array (a_components acc) h' =
    read_array (a_components acc) h ++ read_array (a_components sub) h.
Proof.
  intros Hnd Halloc Hsub. cbv zeta.
  assert (Hd : a_withLayout acc <> a_withoutLayout acc /\
               a_withLayout acc <> a_resources acc /\
               a_withLayout acc <> a_components acc /\
               a_withoutLayout acc <> a_resources acc /\
               a_withoutLayout acc <> a_components acc /\
               a_resources acc <> a_components acc).
  { apply (call_ready_distinct (h ++ [[]]) (length h) acc).
    unfold call_ready. rewrite length_app. simpl. repeat split; try done.
    - lia.
    - intros Hw. apply Halloc in Hw. lia.
    - intros l Hw. apply Halloc in Hw. lia. }
  destruct Hd as (N1 & N2 & N3 & N4 & N5 & N6).
  assert (Hs : forall ls la, writes_to sub ls -> writes_to acc la -> la <> ls).
  { intros ls la Hls Hla ->. by apply (Hsub ls). }
  assert (Wa1 : writes_to acc (a_withLayout acc)) by (unfold writes_to; tauto).
  assert (Wa2 : writes_to acc (a_withoutLayout acc)) by (unfold writes_to; tauto).
  assert (Wa3 : writes_to acc (a_resources acc)) by (unfold writes_to; tauto).
  assert (Wa4 : writes_to acc (a_components acc)) by (unfold writes_to; tauto).
  assert (Ws1 : writes_to sub (a_withLayout sub)) by (unfold writes_to; tauto).
  assert (Ws2 : writes_to sub (a_withoutLayout sub)) by (unfold writes_to; tauto).
  assert (Ws3 : writes_to sub (a_resources sub)) by (unfold writes_to; tauto).
  assert (Ws4 : writes_to sub (a_components sub)) by (unfold writes_to; tauto).
  unfold push_spread_heap.
  repeat split;
    repeat first
      [ rewrite read_array_push_same
          by (rewrite ?length_array_push; by apply Halloc)
      | rewrite read_array_push_other by (congruence || by apply Hs) ];
    reflexivity.
Qed.

(** A recursive call that represents [r_sub] on its own fresh arrays,
    followed by the four spreading pushes, adds [r_sub] to what the
    caller has. *)
Lemma represents_recursive_call h0 here acc (h ext hh : Heap) r here_sub
    segs r_sub :
  call_ready h0 here acc ->
  represents h0 here acc h r ->
  here_sub = here \/ length h <= here_sub ->
  here_sub < length (h ++ ext) ->
  read_array here_sub (h ++ ext) = read_array here h ++ map HSegment segs ->
  (segs = [] <-> here_sub = here) ->
  represents (new_arrays (h ++ ext)).2 here_sub (new_arrays (h ++ ext)).1
             hh r_sub ->
  represents h0 here acc
             (push_spread_heap (new_arrays (h ++ ext)).1 acc hh)
             (push_spread r_sub r).
Proof.
  intros Hready Hrep Hhere_sub Hsub_lt Hsub_cells Hsegs Hsub.
  pose proof (new_arrays_empty (h ++ ext)) as Hempty.
  pose proof (new_arrays_fresh (h ++ ext)) as Hfresh.
  destruct (new_arrays (h ++ ext)) as [sub h']. simpl in *.
  destruct Hfresh as (Hlen' & Hold & Hsublo).
  rewrite length_app in *.
  pose proof Hready as (Hhere & Hhere_out & Halloc & Hnd).
  pose proof Hrep as ([Hlen0 _] & _).
  destruct Hsub as ([Hlenhh Hkeep] & wl & rs & E1 & F1 & E2 & E3 & F3 & E4).
  assert (Hacc_lt : forall l, writes_to acc l -> l < length hh).
  { intros l Hw. apply Halloc in Hw. lia. }
  assert (Hdisj : forall l, writes_to sub l -> ~ writes_to acc l).
  { intros l Hs Ha. apply Hsublo in Hs. apply Halloc in Ha. lia. }
  assert (Hsame : forall l, l < length h -> hh !! l = h !! l).
  { intros l Hl. rewrite Hkeep.
    - rewrite Hold by lia. by apply lookup_app_l.
    - lia.
    - intros Hs. apply Hsublo in Hs. lia. }
  assert (Hread : forall l, l < length h -> read_array l hh = read_array l h).
  { intros l Hl. unfold read_array. by rewrite Hsame. }
  pose proof (frames_push_spread sub acc hh) as Hfinal.
  destruct (push_spread_heap_reads sub acc hh Hnd Hacc_lt Hdisj)
    as (R1 & R2 & R3 & R4).
  assert (Hcell : forall c x,
            entry_cell hh here_sub (length h') c x ->
            entry_cell (push_spread_heap sub acc hh) here (length h0) c x).
  { intros c x (p & cs & -> & Hp & Hplen & Hpath & Hcells & Hcs).
    assert (Hp' : p = here \/ length h0 <= p).
    { destruct Hp as [->|Hp]; [|right; lia].
      destruct Hhere_sub as [->|?]; [by left | right; lia]. }
    pose proof (entry_ref_outside h0 here acc p Hready Hp') as Hout.
    assert (Hsub_hh : read_array here_sub hh =
                      read_array here h ++ map HSegment segs).
    { rewrite <- Hsub_cells. unfold read_array. rewrite Hkeep.
      - by rewrite Hold.
      - lia.
      - intros Hs. apply Hsublo in Hs. lia. }
    exists p, (segs ++ cs). split; [done|]. split; [done|].
    split; [destruct Hfinal; lia|]. split; [|split].
    - rewrite <- Hpath. by apply (path_of_heap_frames acc).
    - rewrite (read_array_frames acc hh _ p Hfinal Hplen Hout).
      rewrite (read_array_frames acc hh _ here Hfinal); [|lia|done].
      rewrite Hcells, Hsub_hh, (Hread here) by lia.
      by rewrite map_app, app_assoc.
    - split.
      + intros Hnil. apply app_eq_nil in Hnil as [Hs Hc].
        apply Hsegs in Hs. apply Hcs in Hc. congruence.
      + intros ->. destruct Hp as [->|Hp]; [|lia].
        destruct Hhere_sub as [Heq|?]; [|lia].
        pose proof (proj2 Hsegs Heq) as ->. pose proof (proj2 Hcs eq_refl) as ->.
        done. }
  apply (represents_extend h0 here acc h _ r r_sub wl rs); try assumption.
  - split; [destruct Hfinal; lia|].
    intros l Hl Hout. destruct Hfinal as [_ Hk].
    rewrite Hk; [by apply Hsame | lia | done].
  - rewrite R1, E1, Hempty, Hread; [done| |unfold writes_to; tauto].
    assert (writes_to acc (a_withLayout acc)) as Hw by (unfold writes_to; tauto).
    apply Halloc in Hw. lia.
  - eapply Forall2_impl; [exact F1 | exact Hcell].
  - rewrite R2, E2, Hempty, Hread; [done| |unfold writes_to; tauto].
    assert (writes_to acc (a_withoutLayout acc)) as Hw
      by (unfold writes_to; tauto).
    apply Halloc in Hw. lia.
  - rewrite R3, E3, Hempty, Hread; [done| |unfold writes_to; tauto].
    assert (writes_to acc (a_resources acc)) as Hw by (unfold writes_to; tauto).
    apply Halloc in Hw. lia.
  - eapply Forall2_impl; [exact F3 | exact Hcell].
  - rewrite R4, E4, Hempty, Hread; [done| |unfold writes_to; tauto].
    assert (writes_to acc (a_components acc)) as Hw by (unfold writes_to; tauto).
    apply Halloc in Hw. lia.
Qed.

Lemma path_of_heap_new_array (h : Heap) here seg :
  path_of_heap (h ++ [read_array here h ++ [HSegment seg]]) (length h) =
  path_of_heap h here ++ [seg].
Proof.
  unfold path_of_heap, read_array at 1.
  rewrite lookup_app_r by lia.
  replace (length h - length h) with 0 by lia. simpl.
  by rewrite omap_app.
Qed.

Lemma path_of_heap_extended (h ext : Heap) l :
  l < length h -> path_of_heap (h ++ ext) l = path_of_heap h l.
Proof.
  intros Hl. unfold path_of_heap, read_array. by rewrite lookup_app_l.
Qed.

(** The run on the heap and the run on values go in step. *)
Lemma forEachChild_heap_represents nodes :
  forall h0 here acc (h : Heap) r,
    call_ready h0 here acc ->
    represents h0 here acc h r ->
    represents h0 here acc (forEachChild_heap nodes here acc h)
               (forEachChild nodes (path_of_heap h0 here) r).
Proof.
  induction nodes as [ | | b | s | z | items IH | ty ch pr IH]
    using ReactNode_nested_ind; intros h0 here acc h r Hready Hrep;
    try exact Hrep.
  - simpl. revert h r Hrep.
    induction IH as [|n items Hn _ IHitems]; intros h r Hrep; [done|].
    apply IHitems. by apply Hn.
  - cbn [forEachChild_heap forEachChild].
    set (start := path_of_heap h0 here).
    (* Fragment *)
    set (h1 := if type_is ty Fragment then _ else h).
    set (r1 := if type_is ty Fragment then _ else r).
    assert (H1 : represents h0 here acc h1 r1).
    { subst h1 r1. destruct (type_is ty Fragment); [|done].
      destruct (represents_here _ _ _ _ _ Hready Hrep) as [Hlen Hpath].
      assert (Hsub_lt : here < length (h ++ [])) by by rewrite app_nil_r.
      assert (Hsub_cells : read_array here (h ++ []) =
                           read_array here h ++ map HSegment [])
        by by rewrite !app_nil_r.
      pose proof (represents_recursive_call h0 here acc h []
                    (forEachChild_heap ch here (new_arrays (h ++ [])).1
                                       (new_arrays (h ++ [])).2)
                    r here [] (forEachChild ch start empty_result)
                    Hready Hrep (or_introl eq_refl) Hsub_lt Hsub_cells
                    (conj (fun _ => eq_refl) (fun _ => eq_refl))) as Hcall.
      rewrite app_nil_r in Hcall.
      pose proof (IH (new_arrays h).2 here (new_arrays h).1 (new_arrays h).2
                     empty_result (new_arrays_ready h here Hlen)
                     (represents_start _ _ _)) as Hsub.
      replace (path_of_heap (new_arrays h).2 here) with start in Hsub.
      - specialize (Hcall Hsub). by destruct (new_arrays h).
      - rewrite new_arrays_spec. simpl.
        by rewrite path_of_heap_extended. }
    clearbody h1 r1.
    (* Category *)
    set (h2 := if type_is ty Category then _ else h1).
    set (r2 := if type_is ty Category then _ else r1).
    assert (H2 : represents h0 here acc h2 r2).
    { subst h2 r2. destruct (type_is ty Category); [|done].
      destruct (represents_here _ _ _ _ _ Hready H1) as [Hlen Hpath].
      unfold new_array.
      set (ext := [read_array here h1 ++ [HSegment pr]]).
      assert (Hlen_sub : length h1 < length (h1 ++ ext)).
      { rewrite length_app. simpl. lia. }
      assert (Hsub_cells : read_array (length h1) (h1 ++ ext) =
                           read_array here h1 ++ map HSegment [pr]).
      { unfold read_array at 1. rewrite lookup_app_r by lia.
        by replace (length h1 - length h1) with 0 by lia. }
      assert (Hsegs : [pr] = [] <-> length h1 = here).
      { split; [discriminate | lia]. }
      pose proof (represents_recursive_call h0 here acc h1 ext
                    (forEachChild_heap ch (length h1) (new_arrays (h1 ++ ext)).1
                                       (new_arrays (h1 ++ ext)).2)
                    r1 (length h1) [pr]
                    (forEachChild ch (start ++ [pr]) empty_result)
                    Hready H1 (or_intror (le_n _)) Hlen_sub Hsub_cells Hsegs)
        as Hcall.
      pose proof (IH (new_arrays (h1 ++ ext)).2 (length h1)
                     (new_arrays (h1 ++ ext)).1 (new_arrays (h1 ++ ext)).2
                     empty_result (new_arrays_ready (h1 ++ ext) _ Hlen_sub)
                     (represents_start _ _ _)) as Hsub.
      replace (path_of_heap (new_arrays (h1 ++ ext)).2 (length h1))
        with (start ++ [pr]) in Hsub.
      - specialize (Hcall Hsub). by destruct (new_arrays (h1 ++ ext)).
      - rewrite new_arrays_spec. simpl.
        rewrite path_of_heap_extended by done.
        subst ext. rewrite path_of_heap_new_array. by rewrite Hpath. }
    clearbody h2 r2.
    (* CustomRoute *)
    set (h3 := if type_is ty CustomRoute then _ else h2).
    set (r3 := if type_is ty CustomRoute then _ else r2).
    assert (H3 : represents h0 here acc h3 r3).
    { subst h3 r3. destruct (type_is ty CustomRoute); [|done].
      destruct (truthy (js_get pr "noLayout")).
      - by apply represents_push_withoutLayout.
      - by apply represents_push_withLayout. }
    clearbody h3 r3.
    (* Resource *)
    set (h4 := if type_is ty Resource then _ else h3).
    set (r4 := if type_is ty Resource then _ else r3).
    assert (H4 : represents h0 here acc h4 r4).
    { subst h4 r4. destruct (type_is ty Resource); [|done].
      by apply represents_push_resource. }
    clearbody h4 r4.
    by apply represents_push_component.
Qed.

Lemma entries_of_cells (h : Heap) here lo cells (xs : list Entry) l :
  read_array l h = cells ->
  Forall2 (entry_cell h here lo) cells xs ->
  entries_of_heap h l = xs.
Proof.
  intros Hread Hcells. unfold entries_of_heap. rewrite Hread.
  clear Hread.
  induction Hcells as [|c x cells xs (p & cs & -> & _ & _ & Hpath & _) _ IH];
    [done|].
  csimpl. rewrite Hpath, IH. by destruct x.
Qed.

Lemma elements_of_cells (h : Heap) (es : list ReactElement) l :
  read_array l h = map HElement es -> elements_of_heap h l = es.
Proof.
  intros Hread. unfold elements_of_heap. rewrite Hread.
  clear Hread.
  induction es as [|e es IH]; [done|]. csimpl. by rewrite IH.
Qed.

(** Read back from the heap, the arrays a call returns are the
    classification of the tree under the path its path array held. *)
Lemma heap_run_classifies (nodes : ReactNode) (here : loc) (h : Heap) :
  here < length h ->
  result_of_heap (getRoutesAndResourceFromNodes_heap nodes here h).2
                 (getRoutesAndResourceFromNodes_heap nodes here h).1 =
  getRoutesAndResourceFromNodes nodes (path_of_heap h here).
Proof.
  intros Hhere. unfold getRoutesAndResourceFromNodes_heap.
  pose proof (forEachChild_heap_represents nodes (new_arrays h).2 here
                (new_arrays h).1 (new_arrays h).2 empty_result
                (new_arrays_ready h here Hhere) (represents_start _ _ _))
    as Hrep.
  pose proof (new_arrays_empty h) as Hempty.
  replace (path_of_heap (new_arrays h).2 here) with (path_of_heap h here)
    in Hrep
    by (rewrite new_arrays_spec; simpl; by rewrite path_of_heap_extended).
  destruct (new_arrays h) as [acc h']. simpl in *.
  destruct Hrep as (_ & wl & rs & E1 & F1 & E2 & E3 & F3 & E4).
  rewrite Hempty in E1, E2, E3, E4 by (unfold writes_to; tauto).
  simpl in *. unfold getRoutesAndResourceFromNodes.
  apply RoutesAndResources_eq; simpl.
  - by eapply entries_of_cells.
  - by apply elements_of_cells.
  - by eapply entries_of_cells.
  - by apply elements_of_cells.
Qed.

(** * Further properties of the classifier *)

Lemma visits_ignored n : ignored n = true -> visits n = [].
Proof. by destruct n. Qed.

Lemma visits_without_ignored items :
  visits (NArray (List.filter (fun n => negb (ignored n)) items)) =
  visits (NArray items).
Proof.
  rewrite !visits_array.
  induction items as [|n items IH]; [done|]. simpl.
  destruct (ignored n) eqn:Hn; simpl.
  - by rewrite (visits_ignored n Hn).
  - by rewrite IH.
Qed.

(** X1.  Children that are not elements ([null], [undefined], booleans,
    text, numbers) are skipped: alone they classify to four empty lists,
    and dropping them from an array of children changes nothing in its
    classification. *)
Theorem non_elements_are_skipped (items : list ReactNode) (start : Path) :
  getRoutesAndResourceFromNodes (NArray items) start =
    getRoutesAndResourceFromNodes
      (NArray (List.filter (fun n => negb (ignored n)) items)) start /\
  (forall n, In n [NNull; NUndefined] ->
     getRoutesAndResourceFromNodes n start = empty_result) /\
  (forall b s z,
     getRoutesAndResourceFromNodes (NBool b) start = empty_result /\
     getRoutesAndResourceFromNodes (NText s) start = empty_result /\
     getRoutesAndResourceFromNodes (NNumber z) start = empty_result).
Proof.
  split; [|split].
  - by rewrite !classifier_visits, visits_without_ignored.
  - intros n [<-|[<-|[]]]; reflexivity.
  - intros b s z. repeat split.
Qed.

Lemma non_elements_are_skipped_witness :
  getRoutesAndResourceFromNodes NNull [] = empty_result.
Proof.
  destruct (non_elements_are_skipped [] []) as (_ & H & _).
  apply H. left. reflexivity.
Defined.

Lemma classify_cons n items start :
  getRoutesAndResourceFromNodes (NArray (n :: items)) start =
  push_spread (getRoutesAndResourceFromNodes (NArray items) start)
              (getRoutesAndResourceFromNodes n start).
Proof.
  rewrite !classifier_visits, !visits_array. simpl.
  apply buckets_of_app.
Qed.

(** X2.  The children of an array are classified one after the other
    and independently: each of the four lists of the array is the
    concatenation, in order, of the corresponding lists of its items.
    Nested arrays are thereby flattened. *)
Theorem array_items_are_classified_in_turn
    (items : list ReactNode) (start : Path) :
  let r := getRoutesAndResourceFromNodes (NArray items) start in
  let each := fun n => getRoutesAndResourceFromNodes n start in
  customRoutesWithLayout r =
    concat (map (fun n => customRoutesWithLayout (each n)) items) /\
  customRoutesWithoutLayout r =
    concat (map (fun n => customRoutesWithoutLayout (each n)) items) /\
  resources r = concat (map (fun n => resources (each n)) items) /\
  components r = concat (map (fun n => components (each n)) items).
Proof.
  cbv zeta. induction items as [|n items (IH1 & IH2 & IH3 & IH4)]; [done|].
  rewrite classify_cons. simpl. by rewrite IH1, IH2, IH3, IH4.
Qed.

Lemma filter_under (f : ReactElement -> bool) seg vs :
  List.filter (fun v => f (snd v)) (map (under seg) vs) =
  map (under seg) (List.filter (fun v => f (snd v)) vs).
Proof.
  induction vs as [|v vs IH]; [done|]. simpl.
  destruct (f (snd v)); simpl; by rewrite IH.
Qed.

(** Visits of leaves are the same with and without the Fragments. *)
Lemma leaf_visits_unwrapped (f : ReactElement -> bool) nodes :
  (forall e, f e = true -> is_leaf e = true) ->
  List.filter (fun v => f (snd v)) (visits (unwrap_fragments nodes)) =
  List.filter (fun v => f (snd v)) (visits nodes).
Proof.
  intros Hf.
  assert (Hwrap : forall (cs : Path) e, is_leaf e = false ->
            List.filter (fun v : Path * ReactElement => f (snd v)) [(cs, e)]
            = []).
  { intros cs e He. simpl. destruct (f e) eqn:Hfe; [|done].
    apply Hf in Hfe. congruence. }
  induction nodes as [ | | b | s | z | items IH | ty ch pr IH]
    using ReactNode_nested_ind; try done.
  - cbn [unwrap_fragments]. rewrite !visits_array.
    induction IH as [|n items Hn _ IHitems]; [done|].
    simpl. by rewrite !List.filter_app, Hn, IHitems.
  - destruct ty; try done.
    + cbn [unwrap_fragments visits].
      by rewrite List.filter_app, Hwrap, app_nil_r.
    + cbn [unwrap_fragments visits].
      by rewrite !List.filter_app, !Hwrap, !filter_under, IH.
Qed.

(** X3.  Fragments only group: replacing every visited Fragment by
    its children, at any depth, leaves the three classified lists as
    they were, paths included. *)
Theorem fragments_can_be_unwrapped (nodes : ReactNode) (start : Path) :
  let r := getRoutesAndResourceFromNodes nodes start in
  let r' := getRoutesAndResourceFromNodes (unwrap_fragments nodes) start in
  customRoutesWithLayout r' = customRoutesWithLayout r /\
  customRoutesWithoutLayout r' = customRoutesWithoutLayout r /\
  resources r' = resources r.
Proof.
  cbv zeta. rewrite !classifier_visits. simpl.
  rewrite !leaf_visits_unwrapped; [done|..];
    intros [ty ch pr]; unfold goes_resources, goes_withoutLayout,
      goes_withLayout, is_leaf; simpl; by destruct ty.
Qed.


Lemma entry_at_below outer start v :
  entry_at (outer ++ start) v = below outer (entry_at start v).
Proof. unfold entry_at, below. simpl. by rewrite app_assoc. Qed.

(** X4.  The starting path is only ever put in front: classifying
    under [outer ++ start] gives the entries of the classification under
    [start] with [outer] in front of each path, in the same order; the
    layout-free and the passthrough list do not depend on the starting
    path at all. *)
Theorem starting_path_is_only_prefixed (nodes : ReactNode) (outer start : Path) :
  let r := getRoutesAndResourceFromNodes nodes (outer ++ start) in
  let r0 := getRoutesAndResourceFromNodes nodes start in
  customRoutesWithLayout r = map (below outer) (customRoutesWithLayout r0) /\
  resources r = map (below outer) (resources r0) /\
  customRoutesWithoutLayout r = customRoutesWithoutLayout r0 /\
  components r = components r0.
Proof.
  cbv zeta. rewrite !classifier_visits. simpl. rewrite !map_map.
  repeat split; apply map_ext; intros v; apply entry_at_below.
Qed.

(** X5.  The passthrough list is a superset: every element found in
    one of the three classified lists is also in the passthrough list,
    and the three lists together are never longer than it. *)
Theorem classified_elements_are_passed_through
    (nodes : ReactNode) (start : Path) :
  let r := getRoutesAndResourceFromNodes nodes start in
  length (customRoutesWithLayout r) + length (customRoutesWithoutLayout r)
    + length (resources r) <= length (components r) /\
  forall e,
    In e (customRoutesWithoutLayout r) \/
    (exists q, In {| path := q; element := e |} (customRoutesWithLayout r)) \/
    (exists q, In {| path := q; element := e |} (resources r)) ->
    In e (components r).
Proof.
  cbv zeta. split.
  - rewrite classifier_visits, bucket_lengths. simpl. rewrite length_map.
    apply List.filter_length_le.
  - intros e Hin. apply in_components.
    destruct Hin as [Hin|[[q Hin]|[q Hin]]].
    + by apply in_withoutLayout in Hin as [_ ?].
    + apply in_withLayout in Hin as (_ & cs & ? & _). eauto.
    + apply in_resources in Hin as (_ & cs & ? & _). eauto.
Qed.

Lemma classified_elements_are_passed_through_witness :
  In (Samples.resource "posts")
     (components (getRoutesAndResourceFromNodes Samples.tree [])).
Proof.
  destruct (classified_elements_are_passed_through Samples.tree []) as [_ H].
  apply H. right. right. exists [[("name", JStr "blog")]].
  right. left. reflexivity.
Defined.

(** X6.  The classifier does not look below an element that is neither
    a Fragment nor a Category: such an element is the only item of its
    passthrough list and the only element its classified lists can hold,
    at the starting path; a Resource or CustomRoute placed among its
    children is not classified. *)
Theorem children_of_a_leaf_are_not_classified
    (e : ReactElement) (start : Path) :
  is_leaf e = true ->
  let r := getRoutesAndResourceFromNodes (NElement e) start in
  components r = [e] /\
  (forall x, In x (customRoutesWithLayout r) \/ In x (resources r) ->
             x = {| path := start; element := e |}) /\
  (forall x, In x (customRoutesWithoutLayout r) -> x = e).
Proof.
  intros Hleaf. cbv zeta. rewrite classifier_visits.
  destruct e as [ty ch pr]. unfold is_leaf in Hleaf. simpl in Hleaf.
  assert (Hv : visits (NElement (Element ty ch pr)) = [([], Element ty ch pr)]).
  { destruct ty; try discriminate; reflexivity. }
  rewrite Hv. unfold buckets_of, entry_at. simpl. rewrite ?app_nil_r.
  split; [done|]. split.
  - intros x [Hin|Hin].
    + destruct (goes_withLayout (Element ty ch pr)); simpl in Hin; [|done].
      destruct Hin as [<-|[]]. by rewrite app_nil_r.
    + destruct (goes_resources (Element ty ch pr)); simpl in Hin; [|done].
      destruct Hin as [<-|[]]. by rewrite app_nil_r.
  - intros x Hin.
    destruct (goes_withoutLayout (Element ty ch pr)); simpl in Hin; [|done].
    by destruct Hin as [<-|[]].
Qed.

Lemma children_of_a_leaf_are_not_classified_witness :
  let box := Element (OtherType "div")
               (NElement (Samples.resource "users")) [] in
  components (getRoutesAndResourceFromNodes (NElement box) []) = [box].
Proof.
  cbv zeta.
  refine (proj1 (children_of_a_leaf_are_not_classified
                   (Element (OtherType "div")
                      (NElement (Samples.resource "users")) []) [] _)).
  reflexivity.
Defined.

(** * Further properties of the run on the heap *)

(** X7.  Run on a heap whose location [here] holds the path array, the
    classifier returns four arrays it has allocated itself, and read
    back they are the classification of the tree under the path that
    [here] held when the call started. *)
Theorem returned_arrays_are_fresh_and_hold_the_classification
    (nodes : ReactNode) (here : loc) (h : Heap) :
  here < length h ->
  let run := getRoutesAndResourceFromNodes_heap nodes here h in
  result_of_heap run.2 run.1 =
    getRoutesAndResourceFromNodes nodes (path_of_heap h here) /\
  forall l, writes_to run.1 l -> length h <= l < length run.2.
Proof.
  intros Hhere. cbv zeta. split; [by apply heap_run_classifies|].
  unfold getRoutesAndResourceFromNodes_heap. rewrite new_arrays_spec.
  cbn [fst snd].
  match goal with
  | |- context [forEachChild_heap nodes here ?acc ?h'] =>
      destruct (forEachChild_heap_frames nodes here acc h') as [Hlen _]
  end.
  rewrite length_app in Hlen. simpl in Hlen.
  unfold writes_to. simpl. intros l Hw. lia.
Qed.

Lemma returned_arrays_are_fresh_and_hold_the_classification_witness :
  let h := [[HSegment [("name", JStr "admin")]]] in
  let run := getRoutesAndResourceFromNodes_heap Samples.tree 0 h in
  result_of_heap run.2 run.1 =
    getRoutesAndResourceFromNodes Samples.tree [[("name", JStr "admin")]].
Proof.
  cbv zeta.
  refine (proj1 (returned_arrays_are_fresh_and_hold_the_classification
                   Samples.tree 0 [[HSegment [("name", JStr "admin")]]] _)).
  simpl. lia.
Defined.

Lemma path_of_segments (cs : Path) :
  omap (fun c => match c with HSegment seg => Some seg | _ => None end)
       (map HSegment cs) = cs.
Proof. induction cs as [|seg cs IH]; [done|]. csimpl. by rewrite IH. Qed.

(** X8.  The entries a call returns hold their path by reference.  An
    entry visited outside any Category, whose path is the starting path,
    holds the very path array the call was given: the array is shared,
    not copied.  An entry visited inside Categories holds an array
    allocated during the call, after the four arrays the call returns,
    whose cells are those of the given path array followed by the
    segments of the enclosing Categories. *)
Theorem entries_hold_the_given_path_array_or_a_category_extension
    (nodes : ReactNode) (here : loc) (h : Heap) :
  here < length h ->
  let run := getRoutesAndResourceFromNodes_heap nodes here h in
  let r := getRoutesAndResourceFromNodes nodes (path_of_heap h here) in
  Forall2 (holds_path_by_reference h run.2 here)
          (read_array (a_withLayout run.1) run.2) (customRoutesWithLayout r) /\
  Forall2 (holds_path_by_reference h run.2 here)
          (read_array (a_resources run.1) run.2) (resources r).
Proof.
  intros Hhere. cbv zeta. unfold getRoutesAndResourceFromNodes_heap.
  pose proof (new_arrays_ready h here Hhere) as Hready.
  pose proof (forEachChild_heap_represents nodes (new_arrays h).2 here
                (new_arrays h).1 (new_arrays h).2 empty_result
                Hready (represents_start _ _ _)) as Hrep.
  pose proof (represents_here _ _ _ _ _ Hready Hrep) as [_ Hstart].
  pose proof (new_arrays_empty h) as Hempty.
  pose proof (new_arrays_fresh h) as Hfresh.
  assert (Hstart0 : path_of_heap (new_arrays h).2 here = path_of_heap h here)
    by (rewrite new_arrays_spec; simpl; by rewrite path_of_heap_extended).
  assert (Hcells0 : read_array here (new_arrays h).2 = read_array here h).
  { rewrite new_arrays_spec. unfold read_array. simpl.
    by rewrite lookup_app_l. }
  rewrite Hstart0 in Hrep, Hstart.
  destruct (new_arrays h) as [acc h']. simpl in *.
  destruct Hfresh as (Hlen' & _ & _).
  set (h'' := forEachChild_heap nodes here acc h') in *.
  destruct Hrep as (Hf & wl & rs & E1 & F1 & _ & E3 & F3 & _).
  rewrite Hempty in E1, E3 by (unfold writes_to; tauto). simpl in *.
  assert (Hhere'' : read_array here h'' = read_array here h).
  { rewrite <- Hcells0. apply (read_array_frames acc); [done|lia|].
    by destruct Hready as (_ & ? & _). }
  assert (Hcell : forall c x,
            entry_cell h'' here (length h') c x ->
            holds_path_by_reference h h'' here c x).
  { intros c x (p & cs & -> & Hp & Hlt & Hpath & Hcells & Hcs).
    exists p, cs. split; [done|]. split; [|split].
    - rewrite <- Hpath, <- Hstart. unfold path_of_heap at 1.
      rewrite Hcells, omap_app, path_of_segments. done.
    - by rewrite Hcells, Hhere''.
    - destruct cs as [|seg cs].
      + left. split; [done|]. by apply Hcs.
      + right. split; [done|].
        destruct Hp as [->|Hp]; [|lia].
        by pose proof (proj2 Hcs eq_refl). }
  rewrite E1, E3.
  split; (eapply Forall2_impl; [eassumption | exact Hcell]).
Qed.

Lemma entries_hold_the_given_path_array_or_a_category_extension_witness :
  let h := [[HSegment [("name", JStr "admin")]]] in
  let run := getRoutesAndResourceFromNodes_heap Samples.tree 0 h in
  Forall2 (holds_path_by_reference h run.2 0)
          (read_array (a_resources run.1) run.2)
          (resources (getRoutesAndResourceFromNodes Samples.tree
                        (path_of_heap h 0))).
Proof.
  cbv zeta.
  refine (proj2 (entries_hold_the_given_path_array_or_a_category_extension
                   Samples.tree 0 [[HSegment [("name", JStr "admin")]]] _)).
  simpl. lia.
Defined.

(** On the sample tree: the top-level Resource holds the given array,
    location 0; the Resource inside the Category holds the array the
    Category branch allocated. *)
Example sample_entries_by_reference :
  let h := [[HSegment [("name", JStr "admin")]]] in
  let run := getRoutesAndResourceFromNodes_heap Samples.tree 0 h in
  read_array (a_resources run.1) run.2 =
    [HEntry 0 (Samples.resource "users"); HEntry 5 (Samples.resource "posts")]
  /\ read_array 5 run.2 =
    [HSegment [("name", JStr "admin")]; HSegment [("name", JStr "blog")]].
Proof. vm_compute. split; reflexivity. Qed.

(** * Further properties of the state holder and the hook *)

Lemma flat_cell_nested {A} (cells : list (Cell A)) :
  flat_cell (Nested cells) = flat_cells cells.
Proof.
  unfold flat_cells. simpl.
  induction cells as [|c cells IH]; [done|]. simpl. by rewrite IH.
Qed.

Lemma flat_cells_app {A} (l1 l2 : list (Cell A)) :
  flat_cells (l1 ++ l2) = flat_cells l1 ++ flat_cells l2.
Proof. unfold flat_cells. by rewrite map_app, concat_app. Qed.

Lemma flat_cells_items {A} (l : list A) : flat_cells (map Item l) = l.
Proof.
  unfold flat_cells. induction l as [|x l IH]; [done|]. simpl. by rewrite IH.
Qed.

Lemma flat_after_nesting {A} (previous new : list (Cell A)) :
  flat_cells (previous ++ [Nested new]) = flat_cells previous ++ flat_cells new.
Proof.
  rewrite flat_cells_app. f_equal.
  change (flat_cells [Nested new]) with (flat_cell (Nested new) ++ []).
  rewrite app_nil_r. apply flat_cell_nested.
Qed.

(** X9.  The merge loses and reorders nothing, but it changes the
    shape: each merged list is one cell longer than the previous list,
    whatever the new list holds, and read depth-first with nested arrays
    opened it holds the previous items followed by the new ones.  For
    two classification results the opened lists are those of the first
    followed by those of the second. *)
Theorem merge_keeps_every_item_one_level_down (previous new : StateValue) :
  let merged := mergeRoutesAndResources previous new in
  (length (sv_customRoutesWithLayout merged) =
     S (length (sv_customRoutesWithLayout previous)) /\
   length (sv_customRoutesWithoutLayout merged) =
     S (length (sv_customRoutesWithoutLayout previous)) /\
   length (sv_resources merged) = S (length (sv_resources previous)) /\
   length (sv_components merged) = S (length (sv_components previous))) /\
  (flat_cells (sv_customRoutesWithLayout merged) =
     flat_cells (sv_customRoutesWithLayout previous)
       ++ flat_cells (sv_customRoutesWithLayout new) /\
   flat_cells (sv_customRoutesWithoutLayout merged) =
     flat_cells (sv_customRoutesWithoutLayout previous)
       ++ flat_cells (sv_customRoutesWithoutLayout new) /\
   flat_cells (sv_resources merged) =
     flat_cells (sv_resources previous) ++ flat_cells (sv_resources new) /\
   flat_cells (sv_components merged) =
     flat_cells (sv_components previous) ++ flat_cells (sv_components new)) /\
  forall a b,
    previous = state_of a -> new = state_of b ->
    flat_cells (sv_customRoutesWithLayout merged) =
      customRoutesWithLayout a ++ customRoutesWithLayout b /\
    flat_cells (sv_customRoutesWithoutLayout merged) =
      customRoutesWithoutLayout a ++ customRoutesWithoutLayout b /\
    flat_cells (sv_resources merged) = resources a ++ resources b /\
    flat_cells (sv_components merged) = components a ++ components b.
Proof.
  cbv zeta. simpl. split; [|split].
  - rewrite !length_app. simpl. lia.
  - by rewrite !flat_after_nesting.
  - intros a b -> ->. simpl.
    by rewrite !flat_after_nesting, !flat_cells_items.
Qed.

Lemma merge_keeps_every_item_one_level_down_witness :
  let a := getRoutesAndResourceFromNodes (NElement (Samples.resource "users")) [] in
  let b := getRoutesAndResourceFromNodes (NElement (Samples.resource "posts")) [] in
  flat_cells (sv_resources (mergeRoutesAndResources (state_of a) (state_of b)))
    = resources a ++ resources b.
Proof.
  cbv zeta.
  destruct (merge_keeps_every_item_one_level_down
    (state_of (getRoutesAndResourceFromNodes
                 (NElement (Samples.resource "users")) []))
    (state_of (getRoutesAndResourceFromNodes
                 (NElement (Samples.resource "posts")) [])))
    as (_ & _ & H).
  destruct (H _ _ eq_refl eq_refl) as (_ & _ & Hres & _). exact Hres.
Defined.

Lemma filter_admit_all (routes : list Entry) :
  List.filter admit_all routes = routes.
Proof. induction routes as [|x l IH]; [done|]. simpl. by rewrite IH. Qed.

(** The first render, spelled out. *)
Lemma mount_spelled_out same_deps nodes :
  let rr := getRoutesAndResourceFromNodes nodes [] in
  mount same_deps nodes =
    {| returned := return_fields rr;
       store_calls :=
         map add_call (resources rr)
         ++ map add_call (List.filter without_noMenu (customRoutesWithLayout rr));
       completion := Normal;
       next :=
         {| hs_state := Some rr;
            hs_watch_resources := Some (resources rr, resources rr);
            hs_watch_routes :=
              Some (customRoutesWithLayout rr,
                    List.filter without_noMenu (customRoutesWithLayout rr)) |} |}.
Proof.
  cbv zeta. unfold mount, useConfigureAdminRouterFromChildren, useRegisterMenu,
    evaluate, register_effect. simpl.
  by rewrite filter_admit_all.
Qed.

(** X10.  The first render never throws and registers in a fixed
    order: one [addMenu] per resource entry, in classification order,
    then one per layout-wrapped entry whose [noMenu] is not [true];
    nothing is removed.  The cleanups it leaves registered close over
    exactly these two lists. *)
Theorem mount_registers_resources_then_routes
    (same_deps : list Entry -> list Entry -> bool) (nodes : ReactNode) :
  let rr := getRoutesAndResourceFromNodes nodes [] in
  let r := mount same_deps nodes in
  store_calls r =
    map add_call (resources rr)
    ++ map add_call (List.filter without_noMenu (customRoutesWithLayout rr)) /\
  completion r = Normal /\
  hs_watch_resources (next r) = Some (resources rr, resources rr) /\
  hs_watch_routes (next r) =
    Some (customRoutesWithLayout rr,
          List.filter without_noMenu (customRoutesWithLayout rr)).
Proof. cbv zeta. by rewrite mount_spelled_out. Qed.

Lemma without_noMenu_true (item : Entry) :
  without_noMenu item = true <->
  js_get (props (element item)) "noMenu" <> JBool true.
Proof.
  unfold without_noMenu, strict_eq. rewrite negb_true_iff.
  apply bool_decide_eq_false.
Qed.

(** X11.  What the first render registers, read off the tree: a call
    is made exactly for every visit of a Resource, and for every visit
    of a CustomRoute whose [noLayout] is not truthy and whose [noMenu]
    is anything but the boolean [true] (a string or a number does not
    hide the route); the record is registered at the segments of the
    Categories enclosing the visit. *)
Theorem mount_registers_what_the_tree_declares
    (same_deps : list Entry -> list Entry -> bool) (nodes : ReactNode)
    (c : StoreCall) :
  In c (store_calls (mount same_deps nodes)) <->
  exists cs e,
    reached nodes cs e /\
    c = add_call {| path := cs; element := e |} /\
    (type e = Resource \/
     (type e = CustomRoute /\
      truthy (js_get (props e) "noLayout") = false /\
      js_get (props e) "noMenu" <> JBool true)).
Proof.
  rewrite mount_spelled_out. simpl. rewrite in_app_iff, !in_map_iff. split.
  - intros [([q e] & <- & Hin)|([q e] & <- & Hin)].
    + apply in_resources in Hin as (Hgo & cs & Hr & ->).
      apply goes_resources_spec in Hgo. exists cs, e. eauto.
    + apply filter_In in Hin as [Hin Hadm].
      apply without_noMenu_true in Hadm. simpl in Hadm.
      apply in_withLayout in Hin as (Hgo & cs & Hr & ->).
      apply goes_withLayout_spec in Hgo as [? ?]. exists cs, e.
      split; [done|]. split; [done|]. right. done.
  - intros (cs & e & Hr & -> & [Hty|(Hty & Hlay & Hmenu)]).
    + left. exists {| path := cs; element := e |}. split; [done|].
      apply in_resources. rewrite goes_resources_spec. eauto.
    + right. exists {| path := cs; element := e |}. split; [done|].
      apply filter_In. split.
      * apply in_withLayout. rewrite goes_withLayout_spec. eauto.
      * by apply without_noMenu_true.
Qed.


